(** * Divinator: control-chart zones, pattern rules, outlier tests,
      moving averages and sequence analysis

    A shallow embedding of [Zone], [patterns] and [collapse] of
    divinator 3.1.0 (index.js), with the properties of the control-chart
    core stated and proved over it; and of [iqr], [zscore],
    [modifiedZscore], [xbar], [xbar2], [sequenceAnalysis] and
    [partialMatches] of the same file.

    Numbers.  The samples are finite JavaScript numbers; they are modelled
    as rationals [Q], with [Qeq] for [===] on numbers.  The rounding of the
    floating-point operations and overflow are outside this model.  Where
    the code divides, what a division by zero gives is kept, see
    [quotient].

    Collaborators.  simple-statistics, jStat and bignumber.js are not part
    of the repository.  What [patterns] computes with (mean, standard
    deviation, minimum, maximum) is an input of the model, see [Stats];
    what it only stores in the report is carried as an opaque [VExt]. *)

From Stdlib Require Import QArith List String Ascii Bool Arith ZArith Lia.
From Stdlib Require Import Sorting.Sorted Sorting.Permutation Lqa Qabs Qround.
Import ListNotations.

Open Scope Q_scope.

Set Warnings "-register-all".

(** ** JavaScript values *)

(** The values a report can hold.  [VExt e] is a number or a plain object
    produced by a collaborator call [e]: never an array, never a string,
    so it has no [length] property. *)
Inductive value : Type :=
| VNum (x : Q)
| VArr (xs : list value)
| VExt (origin : string).

(** A plain object with string keys, in insertion order ([Object.keys]). *)
Definition report := list (string * value).

Fixpoint get (p : report) (key : string) : option value :=
  match p with
  | [] => None
  | (k, v) :: r => if String.eqb k key then Some v else get r key
  end.

(** [p[key].push(v)] *)
Fixpoint push (p : report) (key : string) (v : value) : report :=
  match p with
  | [] => []
  | (k, x) :: r =>
      if String.eqb k key
      then (k, match x with VArr l => VArr (l ++ [v]) | _ => x end) :: r
      else (k, x) :: push r key v
  end.

(** Comparisons on numbers, as the source writes them. *)
Definition gtb (a b : Q) : bool := negb (Qle_bool a b).
Definition ltb (a b : Q) : bool := negb (Qle_bool b a).
Definition geb (a b : Q) : bool := Qle_bool b a.

(** An array index as a number. *)
Definition idx (j : nat) : Q := inject_Z (Z.of_nat j).

(** ** Collaborator results *)

(** The statistics of the validated sample that the core computes with:
    [ss.mean], [ss.standardDeviation], [ss.min] and [ss.max].  Every
    collaborator call is taken to return; a sample on which one of them
    throws (simple-statistics wants four points for the kurtosis) is not
    covered. *)
Record Stats : Type := {
  ss_mean : Q;
  ss_standardDeviation : Q;
  ss_min : Q;
  ss_max : Q
}.

(** [validate]: the sample is already a list of finite numbers, so
    [data.map(parseFloat)] is the identity; an array with no finite number
    (here: the empty array) throws. *)
Definition validate (data : list Q) : option (list Q) :=
  match data with
  | [] => None
  | _ => Some data
  end.

(** ** class Zone *)

Module Zone.

Record zone : Type := { name : string; max : Q; min : Q }.

Record t : Type := {
  data : list Q;
  mean : Q;
  std : Q;
  median : value;
  zones : list zone;
  dataZones : list string
}.

(** [Array.prototype.map] with the element and its index. *)
Fixpoint map_index_from {A B : Type} (k : nat) (f : A -> nat -> B) (l : list A) : list B :=
  match l with
  | [] => []
  | a :: r => f a k :: map_index_from (S k) f r
  end.

Definition make_zones (mean std : Q) : list zone :=
  map_index_from 0
    (fun zone index =>
       let factor := idx (index + 1) in
       {| name := zone;
          max := mean + (std * factor);
          min := mean - (std * factor) |})
    ["C"; "B"; "A"]%string.

(** [which]: the first zone, in array order, whose half-open range holds
    the value; ["X"] when none does. *)
Fixpoint which_of (zs : list zone) (val : Q) : string :=
  match zs with
  | [] => "X"%string
  | zone :: rest =>
      if geb val (min zone) && ltb val (max zone)
      then name zone
      else which_of rest val
  end.

(** The constructor. *)
Definition new (st : Stats) (data0 : list Q) : option t :=
  match validate data0 with
  | None => None
  | Some _data =>
      let m := ss_mean st in
      let s := ss_standardDeviation st in
      let zs := make_zones m s in
      Some {| data := _data;
              mean := m;
              std := s;
              median := VExt "ss.median(_data)";
              zones := zs;
              dataZones := map (fun val => which_of zs val) _data |}
  end.


End Zone.

(** ** patterns *)

(** What a slot of [z["zones"]] holds when read by index, next to the
    strings it is compared with. *)
Inductive slot : Type :=
| SString (s : string)
| SZone (z : Zone.zone).

(** [v === s] for a string literal [s]: an object is never strictly equal
    to a string. *)
Definition strict_eq_string (v : slot) (s : string) : bool :=
  match v with
  | SString t => String.eqb t s
  | SZone _ => false
  end.

Definition strict_ne_string (v : slot) (s : string) : bool :=
  negb (strict_eq_string v s).

(** [z["zones"][j]]; [None] is [undefined]. *)
Definition zones_at (z : Zone.t) (j : nat) : option slot :=
  option_map SZone (nth_error (Zone.zones z) j).

(** The trend direction of echo and hotel: [""], ["up"], ["down"]. *)
Inductive direction : Type := NoDir | Up | Down.

Definition direction_eqb (a b : direction) : bool :=
  match a, b with
  | NoDir, NoDir | Up, Up | Down, Down => true
  | _, _ => false
  end.

(** A run of indices, and a list of runs, as arrays. *)
Definition run_value (pts : list nat) : value :=
  VArr (map (fun j => VNum (idx j)) pts).

Definition runs_field (runs : list (list nat)) : value :=
  VArr (map run_value runs).

(** [emitter.emit("points", pts, me)]: the listener pushes the run. *)
Definition emit (p : report) (pts : list nat) (me : string) : report :=
  push p me (run_value pts).

(** The loops of bravo, charlie, foxtrot and golf have one shape: collect
    the indices [j] of [i .. i+L-1] at which [z["zones"][j]] is defined and
    count those that pass the rule's test. *)
Record tally : Type := { pts : list nat; hits : nat }.

Definition count_step (z : Zone.t) (test : slot -> bool) (s : tally) (j : nat) : tally :=
  match zones_at z j with
  | Some v => {| pts := pts s ++ [j]; hits := if test v then S (hits s) else hits s |}
  | None => s
  end.

Definition count_loop (z : Zone.t) (test : slot -> bool) (i L : nat) : tally :=
  fold_left (count_step z test) (seq i L) {| pts := []; hits := O |}.

Definition bravo_test (v : slot) : bool :=
  strict_eq_string v "A" || strict_eq_string v "X".
Definition charlie_test (v : slot) : bool := strict_ne_string v "C".
Definition foxtrot_test (v : slot) : bool := strict_ne_string v "C".
Definition golf_test (v : slot) : bool := strict_eq_string v "C".

(** delta: [pts], [_delta] and [above] ([None] is [undefined]). *)
Record side : Type := { d_pts : list nat; d_count : nat; d_above : option bool }.

Definition delta_step (_data : list Q) (mean : Q) (s : side) (j : nat) : side :=
  match nth_error _data j with
  | None => s
  | Some x =>
      let pts := d_pts s ++ [j] in
      let above := if Nat.eqb (List.length pts) 1 then Some (gtb x mean) else d_above s in
      let n := match above with
               | Some true => if gtb x mean then S (d_count s) else d_count s
               | _ => d_count s
               end in
      let n := match above with
               | Some false => if ltb x mean then S n else n
               | _ => n
               end in
      {| d_pts := pts; d_count := n; d_above := above |}
  end.

Definition delta_loop (_data : list Q) (mean : Q) (i : nat) : side :=
  fold_left (delta_step _data mean) (seq i 7)
    {| d_pts := []; d_count := O; d_above := None |}.

(** echo: [pts], [_echo], [prev] and [dir]. *)
Record trend : Type := {
  t_pts : list nat;
  t_count : nat;
  t_prev : Q;
  t_dir : direction
}.

Definition trend_init : trend :=
  {| t_pts := []; t_count := O; t_prev := 0; t_dir := NoDir |}.

Definition echo_step (_data : list Q) (s : trend) (j : nat) : trend :=
  match nth_error _data j with
  | None => s
  | Some x =>
      if Nat.eqb (List.length (t_pts s)) 0 then
        {| t_pts := t_pts s ++ [j]; t_count := S (t_count s);
           t_prev := x; t_dir := t_dir s |}
      else if Nat.eqb (List.length (t_pts s)) 1 then
        {| t_pts := t_pts s ++ [j]; t_count := S (t_count s);
           t_prev := x; t_dir := if gtb x (t_prev s) then Up else Down |}
      else if direction_eqb (t_dir s) Up && gtb x (t_prev s) then
        {| t_pts := t_pts s ++ [j]; t_count := S (t_count s);
           t_prev := x; t_dir := t_dir s |}
      else if direction_eqb (t_dir s) Down && ltb x (t_prev s) then
        {| t_pts := t_pts s ++ [j]; t_count := S (t_count s);
           t_prev := x; t_dir := t_dir s |}
      else s
  end.

Definition echo_loop (_data : list Q) (i : nat) : trend :=
  fold_left (echo_step _data) (seq i 7) trend_init.

(** hotel: the same state; the loop can [break], which ends the scan of
    the remaining indices. *)
Fixpoint hotel_scan (_data : list Q) (js : list nat) (s : trend) : trend :=
  match js with
  | [] => s
  | j :: js' =>
      match nth_error _data j with
      | None => hotel_scan _data js' s
      | Some x =>
          if Nat.eqb (List.length (t_pts s)) 0 then
            hotel_scan _data js'
              {| t_pts := t_pts s ++ [j]; t_count := S (t_count s);
                 t_prev := x; t_dir := t_dir s |}
          else if Qeq_bool x (t_prev s) then s
          else if Nat.eqb (List.length (t_pts s)) 1 then
            hotel_scan _data js'
              {| t_pts := t_pts s ++ [j]; t_count := S (t_count s);
                 t_prev := x; t_dir := if gtb x (t_prev s) then Up else Down |}
          else if gtb x (t_prev s) && direction_eqb (t_dir s) Down then
            hotel_scan _data js'
              {| t_pts := t_pts s ++ [j]; t_count := S (t_count s);
                 t_prev := x; t_dir := Up |}
          else if ltb x (t_prev s) && direction_eqb (t_dir s) Down then s
          else if ltb x (t_prev s) && direction_eqb (t_dir s) Up then
            hotel_scan _data js'
              {| t_pts := t_pts s ++ [j]; t_count := S (t_count s);
                 t_prev := x; t_dir := Down |}
          else if gtb x (t_prev s) && direction_eqb (t_dir s) Up then s
          else
            hotel_scan _data js'
              {| t_pts := t_pts s ++ [j]; t_count := S (t_count s);
                 t_prev := x; t_dir := t_dir s |}
      end
  end.

Definition hotel_loop (_data : list Q) (i : nat) : trend :=
  hotel_scan _data (seq i 14) trend_init.

(** ** collapse *)

(** [j.match( /^_/ )] *)
Definition starts_with_underscore (j : string) : bool :=
  match j with
  | String c _ => Ascii.eqb c "_"%char
  | EmptyString => false
  end.

(** [c.concat( e )]: an array argument is spread one level, anything else
    is appended as it is. *)
Definition concat1 (c : list value) (e : value) : list value :=
  match e with
  | VArr l => c ++ l
  | _ => c ++ [e]
  end.

(** The numbers of a flat array; [None] when an element is not a number,
    a case the model leaves out (no report of [patterns] has one). *)
Fixpoint numbers (c : list value) : option (list Q) :=
  match c with
  | [] => Some []
  | VNum x :: r => option_map (cons x) (numbers r)
  | _ :: _ => None
  end.

(** [new Set( c )], in insertion order. *)
Definition set_has (s : list Q) (x : Q) : bool := existsb (Qeq_bool x) s.
Definition set_add (s : list Q) (x : Q) : list Q :=
  if set_has s x then s else s ++ [x].
Definition new_Set (c : list Q) : list Q := fold_left set_add c [].

(** [[ ...z ].sort( ( a, b ) => a - b )] *)
Fixpoint sort_insert (x : Q) (l : list Q) : list Q :=
  match l with
  | [] => [x]
  | y :: r => if Qle_bool x y then x :: l else y :: sort_insert x r
  end.
Definition sort_numeric (l : list Q) : list Q := fold_right sort_insert [] l.

(** A number is falsy exactly when it is zero. *)
Definition truthy (x : Q) : bool := negb (Qeq_bool x 0).

(** The loop [for ( let i = 1; i <= z.length; i++ )] over the rest of [z],
    with [seq], [str] and [prev].  [str] is the colon-separated text of the
    current run; it is kept as the list of numbers that
    [str.split( ":" ).map( parseFloat )] reads back from it.  The last
    round, [i = z.length], reads [undefined]: it pushes the current run
    and starts no new one. *)
Fixpoint seq_loop (seq : list (list Q)) (str : list Q) (prev : Q) (rest : list Q)
    : list (list Q) :=
  match rest with
  | [] => seq ++ [str]
  | x :: rest' =>
      if Qeq_bool x (prev + 1)
      then seq_loop seq (str ++ [x]) x rest'
      else seq_loop (seq ++ [str]) (if truthy x then [x] else str) x rest'
  end.

Definition runs_value (runs : list (list Q)) : value :=
  VArr (map (fun g => VArr (map VNum g)) runs).

(** From the flattened array [c] to the stored runs.  [None] is the
    [TypeError] of [z[ 0 ].toString()] on an empty [z]. *)
Definition collapse_numbers (c : list Q) : option value :=
  match sort_numeric (new_Set c) with
  | [] => None
  | z0 :: rest => Some (runs_value (seq_loop [] [z0] z0 rest))
  end.

(** What [collapse] stores under one key that does not start with an
    underscore: a non-empty array is flattened and regrouped, anything
    else is kept.  ([None] also for an array outside the model, see
    [numbers].) *)
Definition collapse_field (v : value) : option value :=
  match v with
  | VArr (e :: es) =>
      match numbers (fold_left concat1 (e :: es) []) with
      | None => None
      | Some c => collapse_numbers c
      end
  | _ => Some v
  end.

Fixpoint collapse (p : report) : option report :=
  match p with
  | [] => Some []
  | (j, v) :: r =>
      match (if starts_with_underscore j then Some v else collapse_field v) with
      | None => None
      | Some v' =>
          match collapse r with
          | None => None
          | Some out => Some ((j, v') :: out)
          end
      end
  end.

(** ** patterns, the function *)

(** The object [p] before the rule loop.  The [poisson] loop after the
    rule loop only fills the object stored under ["poisson"], which the
    model keeps opaque. *)
Definition initial_report (st : Stats) : report :=
  let mean := ss_mean st in
  let std := ss_standardDeviation st in
  let min := ss_min st in
  let max := ss_max st in
  [ ("1sigma", VArr [VNum (mean - std); VNum (mean + std)]);
    ("2sigma", VArr [VNum (mean - std * 2); VNum (mean + std * 2)]);
    ("3sigma", VArr [VNum (mean - std * 3); VNum (mean + std * 3)]);
    ("4sigma", VArr [VNum (mean - std * 4); VNum (mean + std * 4)]);
    ("5sigma", VArr [VNum (mean - std * 5); VNum (mean + std * 5)]);
    ("jarqueBera", VExt "jarqueBera(_data)");
    ("kurtosis", VExt "ss.sampleKurtosis(_data)");
    ("max", VNum max);
    ("mean", VNum mean);
    ("median", VExt "ss.median(_data)");
    ("medianAbsoluteDeviation", VExt "ss.medianAbsoluteDeviation(_data)");
    ("min", VNum min);
    ("mode", VExt "ss.modeSorted(_data)");
    ("outliers", VExt "outliers");
    ("sampleCorrelation", VExt "ss.sampleCorrelation(_data, ctr)");
    ("skewness", VExt "ss.sampleSkewness(_data)");
    ("spread", VNum (max - min));
    ("standardDeviation", VNum std);
    ("pValue", VExt "ss.zScore(max, mean, std)");
    ("zScoreMin", VExt "ss.zScore(min, mean, std)");
    ("poisson", VExt "poisson");
    ("alpha", VArr []);
    ("bravo", VArr []);
    ("charlie", VArr []);
    ("delta", VArr []);
    ("echo", VArr []);
    ("foxtrot", VArr []);
    ("golf", VArr []);
    ("hotel", VArr []) ]%string.

(** One round of the rule loop, for the index [i]. *)
Definition rule_step (z : Zone.t) (_data : list Q) (mean : Q)
    (p : report) (i : nat) : report :=
  let p :=
    match zones_at z i with
    | Some v => if strict_eq_string v "X" then push p "alpha" (VNum (idx i)) else p
    | None => p
    end in
  let b := count_loop z bravo_test i 3 in
  let p := if (2 <=? hits b)%nat && Nat.eqb (List.length (pts b)) 3
           then emit p (pts b) "bravo" else p in
  let c := count_loop z charlie_test i 5 in
  let p := if (4 <=? hits c)%nat && Nat.eqb (List.length (pts c)) 5
           then emit p (pts c) "charlie" else p in
  let d := delta_loop _data mean i in
  let p := if (7 <=? d_count d)%nat then emit p (d_pts d) "delta" else p in
  let e := echo_loop _data i in
  let p := if (7 <=? t_count e)%nat then emit p (t_pts e) "echo" else p in
  let f := count_loop z foxtrot_test i 8 in
  let p := if (8 <=? hits f)%nat then emit p (pts f) "foxtrot" else p in
  let g := count_loop z golf_test i 15 in
  let p := if (15 <=? hits g)%nat then emit p (pts g) "golf" else p in
  let h := hotel_loop _data i in
  if (14 <=? t_count h)%nat then emit p (t_pts h) "hotel" else p.

Definition patterns (st : Stats) (data : list Q) (_collapse : bool) : option report :=
  match validate data with
  | None => None
  | Some _data =>
      match Zone.new st _data with
      | None => None
      | Some z =>
          let mean := ss_mean st in
          let p := initial_report st in
          let zoneVals := Zone.zones z in
          let p := fold_left (rule_step z _data mean) (seq 0 (List.length zoneVals)) p in
          if _collapse then collapse p else Some p
      end
  end.

(** The eight rule fields of a report. *)
Definition rule_names : list string :=
  ["alpha"; "bravo"; "charlie"; "delta"; "echo"; "foxtrot"; "golf"; "hotel"]%string.

(** The five rules that test zone labels. *)
Definition label_rule_names : list string :=
  ["alpha"; "bravo"; "charlie"; "foxtrot"; "golf"]%string.

(** The fields that carry statistics: the scalar ones and the five
    boundary pairs. *)
Definition scalar_names : list string :=
  ["jarqueBera"; "kurtosis"; "max"; "mean"; "median"; "medianAbsoluteDeviation";
   "min"; "mode"; "outliers"; "sampleCorrelation"; "skewness"; "spread";
   "standardDeviation"; "pValue"; "zScoreMin"; "poisson"]%string.

Definition sigma_names : list string :=
  ["1sigma"; "2sigma"; "3sigma"; "4sigma"; "5sigma"]%string.

(** The README's 60-point series. *)
Definition series60 : list Q :=
  map inject_Z
    [42; 41; 45; 49; 44; 39; 47; 42; 69; 60; 59; 40; 39; 40; 18; 41; 48; 50;
     48; 49; 44; 49; 66; 62; 66; 43; 47; 43; 42; 45; 59; 61; 68; 45; 41; 42;
     42; 37; 56; 61; 56; 44; 39; 63; 64; 62; 87; 38; 42; 36; 34; 75; 72; 60;
     37; 44; 43; 44; 48; 45]%Z.

(** ** The report in closed form *)

(** The report with the given runs under delta, echo and hotel, and the
    other five rule fields empty. *)
Definition report_of (st : Stats) (delta echo hotel : list (list nat)) : report :=
  let mean := ss_mean st in
  let std := ss_standardDeviation st in
  let min := ss_min st in
  let max := ss_max st in
  [ ("1sigma", VArr [VNum (mean - std); VNum (mean + std)]);
    ("2sigma", VArr [VNum (mean - std * 2); VNum (mean + std * 2)]);
    ("3sigma", VArr [VNum (mean - std * 3); VNum (mean + std * 3)]);
    ("4sigma", VArr [VNum (mean - std * 4); VNum (mean + std * 4)]);
    ("5sigma", VArr [VNum (mean - std * 5); VNum (mean + std * 5)]);
    ("jarqueBera", VExt "jarqueBera(_data)");
    ("kurtosis", VExt "ss.sampleKurtosis(_data)");
    ("max", VNum max);
    ("mean", VNum mean);
    ("median", VExt "ss.median(_data)");
    ("medianAbsoluteDeviation", VExt "ss.medianAbsoluteDeviation(_data)");
    ("min", VNum min);
    ("mode", VExt "ss.modeSorted(_data)");
    ("outliers", VExt "outliers");
    ("sampleCorrelation", VExt "ss.sampleCorrelation(_data, ctr)");
    ("skewness", VExt "ss.sampleSkewness(_data)");
    ("spread", VNum (max - min));
    ("standardDeviation", VNum std);
    ("pValue", VExt "ss.zScore(max, mean, std)");
    ("zScoreMin", VExt "ss.zScore(min, mean, std)");
    ("poisson", VExt "poisson");
    ("alpha", VArr []);
    ("bravo", VArr []);
    ("charlie", VArr []);
    ("delta", runs_field delta);
    ("echo", runs_field echo);
    ("foxtrot", VArr []);
    ("golf", VArr []);
    ("hotel", runs_field hotel) ]%string.

(** The runs each value rule emits at the start index [i]. *)
Definition delta_at (_data : list Q) (mean : Q) (i : nat) : list (list nat) :=
  let d := delta_loop _data mean i in
  if (7 <=? d_count d)%nat then [d_pts d] else [].

Definition echo_at (_data : list Q) (i : nat) : list (list nat) :=
  let e := echo_loop _data i in
  if (7 <=? t_count e)%nat then [t_pts e] else [].

Definition hotel_at (_data : list Q) (i : nat) : list (list nat) :=
  let h := hotel_loop _data i in
  if (14 <=? t_count h)%nat then [t_pts h] else [].

(** The start indices the rule loop visits: those of [z["zones"]]. *)
Definition visited : list nat := [0; 1; 2]%nat.

Definition delta_runs (_data : list Q) (mean : Q) : list (list nat) :=
  flat_map (delta_at _data mean) visited.
Definition echo_runs (_data : list Q) : list (list nat) :=
  flat_map (echo_at _data) visited.
Definition hotel_runs (_data : list Q) : list (list nat) :=
  flat_map (hotel_at _data) visited.

(** ** Index runs over [nat] *)

(** [seq_loop] on indices, without the accumulator: the runs of a list of
    indices that follows [prev], the last index of the current run [str]. *)
Fixpoint group_from (str : list nat) (prev : nat) (rest : list nat) : list (list nat) :=
  match rest with
  | [] => [str]
  | x :: rest' =>
      if Nat.eqb x (prev + 1)
      then group_from (str ++ [x]) x rest'
      else str :: group_from [x] x rest'
  end.

Definition group (z : list nat) : list (list nat) :=
  match z with
  | [] => []
  | z0 :: rest => group_from [z0] z0 rest
  end.

(** A run of consecutive indices. *)
Definition is_range (g : list nat) : Prop := exists a n, g = seq a (S n).

(** Each run ends at least two below the start of the next one. *)
Fixpoint separated (gs : list (list nat)) : Prop :=
  match gs with
  | g1 :: ((g2 :: _) as t) => (last g1 O + 1 < hd O g2)%nat /\ separated t
  | _ => True
  end.

(** Disjoint, sorted, maximal runs of consecutive indices. *)
Definition ranges (gs : list (list nat)) : Prop :=
  Forall is_range gs /\ separated gs.

(** [sub] keeps some elements of a list, in order. *)
Inductive subseq : list nat -> list nat -> Prop :=
| subseq_nil : subseq [] []
| subseq_skip (x : nat) (sub l : list nat) : subseq sub l -> subseq sub (x :: l)
| subseq_take (x : nat) (sub l : list nat) : subseq sub l -> subseq (x :: sub) (x :: l).

(** [run] is the window of [L] indices that starts at a visited index and
    lies within a sample of length [n]. *)
Definition window (n L : nat) (run : list nat) : Prop :=
  exists i, In i visited /\ (i + L <= n)%nat /\ run = seq i L.

(** Each value is related to the one before it, starting after [prev]. *)
Fixpoint chain (R : Q -> Q -> Prop) (prev : Q) (xs : list Q) : Prop :=
  match xs with
  | [] => True
  | x :: r => R prev x /\ chain R x r
  end.

(** The values [xs] of the sample at the indices [js]. *)
Definition values_at (data : list Q) (js : list nat) (xs : list Q) : Prop :=
  Forall2 (fun j x => nth_error data j = Some x) js xs.

(** Membership up to the equality of numbers. *)
Definition InQ (x : Q) (l : list Q) : Prop := exists y, In y l /\ y == x.

Fixpoint distinct (l : list Q) : Prop :=
  match l with
  | [] => True
  | x :: r => ~ InQ x r /\ distinct r
  end.

Definition increasing (l : list Q) : Prop := StronglySorted Qlt l.

(** ** Specification predicates *)

(** The population statistics of a sample, to check that the [Stats] used
    in an example are the ones of its sample. *)
Definition total (l : list Q) : Q := fold_right Qplus 0 l.

Definition size (l : list Q) : Q := inject_Z (Z.of_nat (List.length l)).

Definition exact_stats (st : Stats) (data : list Q) : Prop :=
  ss_mean st * size data == total data /\
  0 <= ss_standardDeviation st /\
  ss_standardDeviation st * ss_standardDeviation st * size data
    == total (map (fun x => (x - ss_mean st) * (x - ss_mean st)) data) /\
  Forall (fun x => ss_min st <= x /\ x <= ss_max st) data /\
  In (ss_min st) data /\ In (ss_max st) data.





(** A constant sample and its statistics. *)
Definition constant7 : list Q := [7; 7; 7; 7].

(** Nine equal points and one low point: the low point sits exactly on
    the lower edge of zone A. *)
Definition low_edge : list Q := [10; 10; 10; 10; 10; 10; 10; 10; 10; 0].
Definition low_edge_stats : Stats :=
  {| ss_mean := 9; ss_standardDeviation := 3; ss_min := 0; ss_max := 10 |}.

(** Statistics for the series: its mean, and the standard deviation the
    README prints (a decimal approximation). *)
Definition series60_stats : Stats :=
  {| ss_mean := 2962 # 60;
     ss_standardDeviation := 11963787954582875 # 1000000000000000;
     ss_min := 18;
     ss_max := 87 |}.

(** Ten points whose last seven lie below the mean. *)
Definition late_run : list Q := [9; 1; 9; 1; 1; 1; 1; 1; 1; 1].
Definition late_run_stats : Stats :=
  {| ss_mean := 13 # 5; ss_standardDeviation := 16 # 5; ss_min := 1; ss_max := 9 |}.

(** Four points with mean - sigma = -2 and mean + sigma = 0. *)
Definition zero_edge : list Q := [-2; 0; -2; 0].
Definition zero_edge_stats : Stats :=
  {| ss_mean := -1; ss_standardDeviation := 1; ss_min := -2; ss_max := 0 |}.

(** Seven points that start with two equal values and then fall. *)
Definition flat_start : list Q := [5; 5; 4; 3; 2; 1; 0].

(** ** Predicates for the value rules *)

(** Every value lies strictly on one side of the mean: above it when
    [above] is true, below it otherwise. *)
Definition one_side (mean : Q) (above : bool) (xs : list Q) : Prop :=
  Forall (fun x => if above then mean < x else x < mean) xs.

(** The steps alternate: the next value is below [prev] when the last step
    went up, above it when the last step went down, and so on. *)
Fixpoint zigzag (up : bool) (prev : Q) (xs : list Q) : Prop :=
  match xs with
  | [] => True
  | x :: r => (if up then x < prev else prev < x) /\ zigzag (negb up) x r
  end.

(** ** Predicates for collapse on arbitrary objects *)

(** A field [collapse] handles within the model: a list of non-empty runs
    of indices, a number, or a collaborator value. *)
Definition index_field (v : value) : Prop :=
  (exists runs, v = runs_field runs /\ Forall (fun run => run <> []) runs) \/
  (exists x, v = VNum x) \/
  (exists e, v = VExt e).


(** ** iqr, zscore and modifiedZscore *)

(** [iqr].  [val] is the multiplier after [val = +val]; [None] stands for a
    value that is not a finite number, replaced by 1.5 (the default of the
    parameter is 1.5 as well).  [Math.floor( length * ( 3 / 4 ) )] is
    [3 * length / 4] on naturals.  A quartile read out of range would be
    [undefined] and make both bounds NaN, so that no value is reported. *)
Definition iqr (data : list Q) (val : option Q) : option (list Q) :=
  match validate data with
  | None => None
  | Some validatedData =>
      let val := match val with Some v => v | None => 3 # 2 end in
      let sortedData := sort_numeric validatedData in
      match nth_error sortedData (List.length sortedData / 4),
            nth_error sortedData (3 * List.length sortedData / 4) with
      | Some q1, Some q3 =>
          let iqr := q3 - q1 in
          let lowerBound := q1 - val * iqr in
          let upperBound := q3 + val * iqr in
          Some (filter (fun value => ltb value lowerBound || gtb value upperBound)
                       sortedData)
      | _, _ => Some []
      end
  end.

(** The result of a division of finite numbers: a finite number, an
    infinity (a non-zero number by zero) or NaN (zero by zero). *)
Inductive quotient : Type :=
| Finite (q : Q)
| Infinite
| NotANumber.

Definition divide (a b : Q) : quotient :=
  if Qeq_bool b 0
  then (if Qeq_bool a 0 then NotANumber else Infinite)
  else Finite (a / b).

(** [Math.abs( r ) > threshold] for a finite threshold. *)
Definition abs_exceeds (r : quotient) (threshold : Q) : bool :=
  match r with
  | Finite q => gtb (Qabs q) threshold
  | Infinite => true
  | NotANumber => false
  end.


(** [modifiedZscore], with [ss.medianAbsoluteDeviation] and [ss.median] of
    the sample as inputs; 0.6745 is taken as the decimal it is written as. *)
Definition modifiedZscore (mad median : Q) (data : list Q) (threshold : Q)
    : option (list Q) :=
  match validate data with
  | None => None
  | Some validatedData =>
      Some (filter (fun x =>
                      abs_exceeds (divide ((6745 # 10000) * (x - median)) mad) threshold)
                   validatedData)
  end.


(** ** xbar and xbar2 *)

(** The options object: a field that is absent is [None] (no object at all
    is the object with no field).  Sizes and decimal places are
    non-negative integers, on which [parseInt] is the identity. *)
Record options : Type := {
  opt_size : option nat;
  opt_front : option bool;
  opt_d : option nat
}.

(** How a call ends: with a result, with the RangeError of [toFixed], or
    not within the rounds allowed to the model of its loop. *)
Inductive outcome (A : Type) : Type :=
| Returns (a : A)
| Throws
| OutOfFuel.
Arguments Returns {A} a.
Arguments Throws {A}.
Arguments OutOfFuel {A}.

Definition pow10 (d : nat) : Q := inject_Z (10 ^ Z.of_nat d).

(** The number that [x.toFixed( d )] prints, for a finite [x]: [x] itself
    when its absolute value is at least 10^21, and otherwise n / 10^d with
    the sign of [x], for the integer n closest to |x| * 10^d, the larger
    one when two are as close. *)
Definition fixed (q : Q) (d : nat) : Q :=
  if geb (Qabs q) (pow10 21) then q
  else
    let n := Qfloor (Qabs q * pow10 d + (1 # 2)) in
    if ltb q 0 then - (inject_Z n / pow10 d) else inject_Z n / pow10 d.

(** [parseFloat( x.toFixed( d ) )]: a RangeError ([None]) unless
    0 <= d <= 100; NaN and the infinities print as their names, which
    parse back. *)
Definition toFixed (x : quotient) (d : nat) : option quotient :=
  if (100 <? d)%nat then None
  else Some (match x with
             | Finite q => Finite (fixed q d)
             | _ => x
             end).

(** [l.slice( a, b )] for 0 <= a <= b, and what is left of [l] after
    [l.splice( start, count )] for 0 <= start. *)
Definition slice (l : list Q) (a b : nat) : list Q := firstn (b - a) (skipn a l).

Definition splice (l : list Q) (start count : nat) : list Q :=
  firstn start l ++ skipn (start + count) l.

Definition num_of (obj : options) : nat :=
  match opt_size obj with Some size => size | None => 5%nat end.

Definition front_of (obj : options) : bool :=
  match opt_front obj with Some front => front | None => false end.

Definition decimalPlaces_of (obj : options) : nat :=
  match opt_d obj with Some d => d | None => 10%nat end.

(** The chunk loop of [xbar]; [i += num] and [out.push]. *)
Fixpoint xbar_loop (fuel : nat) (_arr : list Q) (num decimalPlaces i : nat)
    (out : list quotient) : outcome (list quotient) :=
  match fuel with
  | O => OutOfFuel
  | S fuel =>
      if (i <? List.length _arr)%nat then
        let avg := divide (fold_left Qplus (slice _arr i (i + num)) 0)
                          (inject_Z (Z.of_nat num)) in
        match toFixed avg decimalPlaces with
        | None => Throws
        | Some r => xbar_loop fuel _arr num decimalPlaces (i + num) (out ++ [r])
        end
      else Returns out
  end.

(** [xbar].  [_arr.length % num] is NaN, which is falsy, when [num] is 0;
    a negative [start] of [splice] counts from the end. *)
Definition xbar (fuel : nat) (arr : list Q) (obj : options)
    : outcome (list quotient) :=
  let num := num_of obj in
  let front := front_of obj in
  let decimalPlaces := decimalPlaces_of obj in
  let remainder :=
    if (num =? 0)%nat then None else Some (List.length arr mod num)%nat in
  let _arr :=
    match remainder with
    | Some (S r) =>
        let remainder := S r in
        splice arr (if front then 0 else List.length arr - remainder)%nat remainder
    | _ => arr
    end in
  xbar_loop fuel _arr num decimalPlaces 0 [].

(** [sum += adjustedArray[ j ]]: an index out of range reads [undefined]
    and makes the sum NaN ([None]). *)
Definition add_at (adjustedArray : list Q) (sum : option Q) (j : nat) : option Q :=
  match sum, nth_error adjustedArray j with
  | Some s, Some v => Some (s + v)
  | _, _ => None
  end.

Definition average (sum : option Q) (windowSize : nat) : quotient :=
  match sum with
  | Some s => divide s (inject_Z (Z.of_nat windowSize))
  | None => NotANumber
  end.

(** The chunk loop of [xbar2], with its inner loop over [j]. *)
Fixpoint xbar2_loop (fuel : nat) (adjustedArray : list Q)
    (windowSize decimalPlaces i : nat) (movingAverages : list quotient)
    : outcome (list quotient) :=
  match fuel with
  | O => OutOfFuel
  | S fuel =>
      if (i <? List.length adjustedArray)%nat then
        let sum := fold_left (add_at adjustedArray) (seq i windowSize) (Some 0) in
        match toFixed (average sum windowSize) decimalPlaces with
        | None => Throws
        | Some r =>
            xbar2_loop fuel adjustedArray windowSize decimalPlaces
                       (i + windowSize) (movingAverages ++ [r])
        end
      else Returns movingAverages
  end.

(** [xbar2]: an option that is absent or falsy (0, [false]) gives way to
    the default; [shift] and [pop] are called [remainder] times. *)
Definition xbar2 (fuel : nat) (inputArray : list Q) (options : options)
    : outcome (list quotient) :=
  let windowSize :=
    match opt_size options with Some (S n) => S n | _ => 5%nat end in
  let removeFromFront :=
    match opt_front options with Some b => b | None => false end in
  let decimalPlaces :=
    match opt_d options with Some (S n) => S n | _ => 10%nat end in
  let remainder := (List.length inputArray mod windowSize)%nat in
  let adjustedArray :=
    Nat.iter remainder
             (if removeFromFront then @tl Q else @removelast Q) inputArray in
  xbar2_loop fuel adjustedArray windowSize decimalPlaces 0 [].

(** The options [xbar2] acts on: a size or a number of decimal places of 0
    counts as absent. *)
Definition truthy_options (o : options) : options :=
  {| opt_size := match opt_size o with Some (S n) => Some (S n) | _ => None end;
     opt_front := opt_front o;
     opt_d := match opt_d o with Some (S n) => Some (S n) | _ => None end |}.

(** The values [xbar] averages: the input without its incomplete window. *)
Definition kept (arr : list Q) (num : nat) (front : bool) : list Q :=
  if front then skipn (List.length arr mod num) arr
  else firstn (List.length arr - List.length arr mod num) arr.


Definition series7 : list Q := [1; 2; 3; 4; 5; 6; 7].

(** ** sequenceAnalysis and partialMatches *)

(** The arrays analysed hold integers.  A cluster is kept as the list of
    its elements, which stands for the key [temp.join( "," )]: the key
    determines the list, and [split( "," )] gives the elements back.  (The
    empty key splits into one empty string; no integer prints as it, so
    against a cluster that is not empty neither the number of equal
    positions nor the larger length changes.) *)
Definition cluster : Type := list Z.

Definition cluster_eqb (a b : cluster) : bool :=
  if list_eq_dec Z.eq_dec a b then true else false.

(** An object with clusters as keys, in the order of creation of its
    properties: [o[ k ]], [o[ k ] = v] and [Object.keys( o )]. *)
Definition object (V : Type) : Type := list (cluster * V).

Fixpoint lookup {V : Type} (k : cluster) (o : object V) : option V :=
  match o with
  | [] => None
  | (k', v) :: o' => if cluster_eqb k k' then Some v else lookup k o'
  end.

Fixpoint store {V : Type} (k : cluster) (v : V) (o : object V) : object V :=
  match o with
  | [] => [(k, v)]
  | (k', v') :: o' =>
      if cluster_eqb k k' then (k, v) :: o' else (k', v') :: store k v o'
  end.

(** A key that is an array index: the decimal form of an integer from 0 to
    2^32 - 2, that is a cluster of one such element. *)
Definition array_index (k : cluster) : option Z :=
  match k with
  | [z] => if (0 <=? z)%Z && (z <=? 4294967294)%Z then Some z else None
  | _ => None
  end.

Definition is_index (k : cluster) : bool :=
  match array_index k with Some _ => true | None => false end.

Definition index_value (k : cluster) : Z :=
  match array_index k with Some z => z | None => 0%Z end.

Fixpoint insert_index (k : cluster) (l : list cluster) : list cluster :=
  match l with
  | [] => [k]
  | k' :: l' =>
      if (index_value k <=? index_value k')%Z then k :: l
      else k' :: insert_index k l'
  end.

(** The keys of an object are enumerated with the array indices first, in
    ascending order, and then the other keys in the order of creation. *)
Definition keys {V : Type} (o : object V) : list cluster :=
  fold_right insert_index [] (filter is_index (map fst o))
  ++ filter (fun k => negb (is_index k)) (map fst o).

Definition count_of (sequences : object nat) (k : cluster) : nat :=
  match lookup k sequences with Some n => n | None => 0%nat end.

(** How many of the clusters [ws] are [c]. *)
Definition occurrences (ws : list cluster) (c : cluster) : nat :=
  count_occ (list_eq_dec Z.eq_dec) ws c.

(** [sequences[ p ] === undefined ? sequences[ p ] = 1 : sequences[ p ]++] *)
Definition count_cluster (sequences : object nat) (p : cluster) : object nat :=
  match lookup p sequences with
  | None => store p 1%nat sequences
  | Some n => store p (S n) sequences
  end.

(** [keys.sort( comparator )] with the comparator of [sequenceAnalysis]:
    the sort is stable, so a key moves in front of the earlier-placed keys
    of smaller count only. *)
Fixpoint insert_by_count (sequences : object nat) (a : cluster)
    (sorted : list cluster) : list cluster :=
  match sorted with
  | [] => [a]
  | b :: sorted' =>
      if (count_of sequences a <? count_of sequences b)%nat
      then b :: insert_by_count sequences a sorted'
      else a :: sorted
  end.

Definition sort_by_count (sequences : object nat) (l : list cluster)
    : list cluster :=
  fold_right (insert_by_count sequences) [] l.

(** The order the comparator asks for: the larger count first. *)
Definition by_count (sequences : object nat) (a b : cluster) : Prop :=
  (count_of sequences b <= count_of sequences a)%nat.

(** [elements1[ k ] === elements2[ k ]]; an index out of range reads
    [undefined]. *)
Definition same_at (elements1 elements2 : cluster) (k : nat) : bool :=
  match nth_error elements1 k, nth_error elements2 k with
  | Some a, Some b => Z.eqb a b
  | None, None => true
  | _, _ => false
  end.

Definition similarity (cluster1 cluster2 : cluster) : Q :=
  let elements1 := cluster1 in
  let elements2 := cluster2 in
  let maxLength := Nat.max (List.length elements1) (List.length elements2) in
  let sameCount :=
    fold_left (fun sameCount k =>
                 if same_at elements1 elements2 k then S sameCount else sameCount)
              (seq 0 maxLength) 0%nat in
  inject_Z (Z.of_nat sameCount) / inject_Z (Z.of_nat maxLength).

(** The body of [if ( similarityCoeff >= threshold )]. *)
Definition record_match (partials : object (object (nat * Q)))
    (cluster1 cluster2 : cluster) (similarityCoeff : Q)
    : object (object (nat * Q)) :=
  let partials :=
    match lookup cluster1 partials with
    | Some _ => partials
    | None => store cluster1 [] partials
    end in
  let inner :=
    match lookup cluster1 partials with Some o => o | None => [] end in
  let inner :=
    match lookup cluster2 inner with
    | None => store cluster2 (1%nat, fixed similarityCoeff 3) inner
    | Some (count, coeff) => store cluster2 (S count, coeff) inner
    end in
  store cluster1 inner partials.

Definition compare_clusters (clusters : list cluster) (threshold : Q) (i : nat)
    (cluster1 : cluster) (partials : object (object (nat * Q))) (j : nat)
    : object (object (nat * Q)) :=
  if (i =? j)%nat then partials
  else
    match nth_error clusters j with
    | None => partials
    | Some cluster2 =>
        if cluster_eqb cluster1 cluster2 then partials
        else
          let similarityCoeff := similarity cluster1 cluster2 in
          if geb similarityCoeff threshold
          then record_match partials cluster1 cluster2 similarityCoeff
          else partials
    end.

Definition threshold_of (threshold : option Q) : Q :=
  match threshold with Some t => t | None => 75 # 100 end.

(** [partialMatches]; the threshold is a finite number or absent, and the
    default is 0.75. *)
Definition partialMatches (clusters : list cluster) (threshold : option Q)
    : object (object (nat * Q)) :=
  let threshold := threshold_of threshold in
  fold_left
    (fun partials i =>
       match nth_error clusters i with
       | None => partials
       | Some cluster1 =>
           fold_left (compare_clusters clusters threshold i cluster1)
                     (seq 0 (List.length clusters)) partials
       end)
    (seq 0 (List.length clusters)) [].

(** [partials[ a ][ b ]], when [partials[ a ]] is there. *)
Definition lookup2 (a b : cluster) (partials : object (object (nat * Q)))
    : option (nat * Q) :=
  match lookup a partials with
  | Some o => lookup b o
  | None => None
  end.

(** What one more match does to an entry. *)
Definition bump (similarityCoeff : Q) (entry : option (nat * Q)) : option (nat * Q) :=
  match entry with
  | None => Some (1%nat, fixed similarityCoeff 3)
  | Some (count, coeff) => Some (S count, coeff)
  end.

Definition cluster_at (clusters : list cluster) (i : nat) (a : cluster) : bool :=
  match nth_error clusters i with
  | Some c => cluster_eqb c a
  | None => false
  end.

(** The rounds of the two loops that add to the entry of [a] and [b]. *)
Definition adds_to (clusters : list cluster) (threshold : Q) (a b : cluster)
    (i j : nat) : bool :=
  negb (i =? j)%nat && cluster_at clusters i a && cluster_at clusters j b
  && negb (cluster_eqb a b) && geb (similarity a b) threshold.

Record analysis : Type := {
  sequences : object nat;
  partials : object (object (nat * Q));
  threshold : option Q;
  strictDuplicates : nat
}.

(** The clusters [newArray] of [sequenceAnalysis]: one for each [i] below
    [arr.length - clusterSize + 1], of the elements from [i] on, at most
    [clusterSize] of them. *)
Definition newArray_of (arr : list Z) (clusterSize : nat) : list cluster :=
  map (fun i => firstn clusterSize (skipn i arr))
      (seq 0 (List.length arr + 1 - clusterSize)).

Definition clusterSize_of (clusterSize : option nat) : nat :=
  match clusterSize with Some c => c | None => 4%nat end.

(** The counts before the sort: every cluster counted, and the clusters
    seen once deleted. *)
Definition duplicates_of (newArray : list cluster) : object nat :=
  let sequences := fold_left count_cluster newArray [] in
  filter (fun kv => negb (snd kv =? 1)%nat) sequences.

(** [sequenceAnalysis]; the default of [clusterSize] is 4, and a threshold
    that is absent or 0 is falsy. *)
Definition sequenceAnalysis (arr : list Z) (clusterSize : option nat)
    (threshold : option Q) : analysis :=
  let clusterSize := clusterSize_of clusterSize in
  let newArray := newArray_of arr clusterSize in
  let sequences := duplicates_of newArray in
  let sorted := sort_by_count sequences (keys sequences) in
  let p := fold_left (fun p k => store k (count_of sequences k) p) sorted [] in
  let partials :=
    match threshold with
    | Some t => if Qeq_bool t 0 then [] else partialMatches newArray threshold
    | None => []
    end in
  {| sequences := p;
     partials := partials;
     threshold := threshold;
     strictDuplicates := List.length (keys sequences) |}.

(** * Properties *)

(** ** Comparisons *)

Lemma ltb_lt (a b : Q) : ltb a b = true <-> a < b.
Proof.
  unfold ltb. rewrite negb_true_iff, <- not_true_iff_false, Qle_bool_iff.
  split; [apply Qnot_le_lt | apply Qlt_not_le].
Qed.

Lemma gtb_lt (a b : Q) : gtb a b = true <-> b < a.
Proof. apply ltb_lt. Qed.

Lemma geb_le (a b : Q) : geb a b = true <-> b <= a.
Proof. unfold geb. apply Qle_bool_iff. Qed.

Lemma ltb_false (a b : Q) : ltb a b = false <-> b <= a.
Proof.
  rewrite <- not_true_iff_false, ltb_lt.
  split; [apply Qnot_lt_le | apply Qle_not_lt].
Qed.

Lemma gtb_false (a b : Q) : gtb a b = false <-> a <= b.
Proof. apply ltb_false. Qed.

(** ** Zone *)



Lemma new_some (st : Stats) (data : list Q) :
  data <> [] ->
  Zone.new st data =
    Some {| Zone.data := data;
            Zone.mean := ss_mean st;
            Zone.std := ss_standardDeviation st;
            Zone.median := VExt "ss.median(_data)";
            Zone.zones := Zone.make_zones (ss_mean st) (ss_standardDeviation st);
            Zone.dataZones :=
              map (Zone.which_of (Zone.make_zones (ss_mean st) (ss_standardDeviation st)))
                  data |}.
Proof. destruct data; [congruence | reflexivity]. Qed.

Lemma new_inv (st : Stats) (data : list Q) (z : Zone.t) :
  Zone.new st data = Some z ->
  data <> [] /\
  Zone.mean z = ss_mean st /\ Zone.std z = ss_standardDeviation st /\
  Zone.zones z = Zone.make_zones (ss_mean st) (ss_standardDeviation st) /\
  Zone.dataZones z = map (Zone.which_of (Zone.zones z)) data.
Proof.
  destruct data as [|x data]; [discriminate|].
  intros H. rewrite new_some in H by discriminate.
  injection H as <-. simpl. repeat split; discriminate.
Qed.


Lemma low_edge_stats_exact : exact_stats low_edge_stats low_edge.
Proof.
  unfold exact_stats, low_edge; simpl.
  repeat split; try reflexivity; try (unfold Qle; simpl; lia).
  - repeat constructor; unfold Qle; simpl; lia.
  - do 9 right; left; reflexivity.
  - left; reflexivity.
Qed.

















(** ** The rule loop *)

Lemma initial_report_of (st : Stats) : initial_report st = report_of st [] [] [].
Proof. reflexivity. Qed.

Lemma emit_delta (st : Stats) (dl el hl : list (list nat)) (pts : list nat) :
  emit (report_of st dl el hl) pts "delta" = report_of st (dl ++ [pts]) el hl.
Proof. unfold emit, report_of, runs_field. cbn. rewrite map_app. reflexivity. Qed.

Lemma emit_echo (st : Stats) (dl el hl : list (list nat)) (pts : list nat) :
  emit (report_of st dl el hl) pts "echo" = report_of st dl (el ++ [pts]) hl.
Proof. unfold emit, report_of, runs_field. cbn. rewrite map_app. reflexivity. Qed.

Lemma emit_hotel (st : Stats) (dl el hl : list (list nat)) (pts : list nat) :
  emit (report_of st dl el hl) pts "hotel" = report_of st dl el (hl ++ [pts]).
Proof. unfold emit, report_of, runs_field. cbn. rewrite map_app. reflexivity. Qed.

(** One round of the loop on a zone object of the constructor: the five
    label rules change nothing, the three value rules append their runs. *)
Lemma rule_step_report_of (st : Stats) (z : Zone.t) (_data : list Q) (mean : Q)
    (dl el hl : list (list nat)) (i : nat) :
  Zone.zones z = Zone.make_zones (ss_mean st) (ss_standardDeviation st) ->
  In i visited ->
  rule_step z _data mean (report_of st dl el hl) i =
  report_of st (dl ++ delta_at _data mean i) (el ++ echo_at _data i)
            (hl ++ hotel_at _data i).
Proof.
  intros Hz Hi.
  assert (L : forall test j L,
             count_loop z test j L =
             fold_left (fun s k =>
                          match option_map SZone
                                  (nth_error (Zone.make_zones (ss_mean st)
                                                (ss_standardDeviation st)) k) with
                          | Some v => {| pts := pts s ++ [k];
                                         hits := if test v then S (hits s) else hits s |}
                          | None => s
                          end) (seq j L) {| pts := []; hits := O |}).
  { intros. unfold count_loop, count_step, zones_at. rewrite Hz. reflexivity. }
  unfold rule_step, zones_at. rewrite Hz, !L. clear L Hz.
  unfold delta_at, echo_at, hotel_at.
  destruct Hi as [<-|[<-|[<-|[]]]]; cbn -[delta_loop echo_loop hotel_loop emit report_of];
    repeat match goal with
           | |- context [if ?c then _ else _] => destruct c
           end;
    rewrite ?emit_delta, ?emit_echo, ?emit_hotel, ?app_nil_r; reflexivity.
Qed.

(** The uncollapsed report, in closed form. *)
Lemma patterns_raw (st : Stats) (data : list Q) :
  data <> [] ->
  patterns st data false =
    Some (report_of st (delta_runs data (ss_mean st)) (echo_runs data) (hotel_runs data)).
Proof.
  intros Hne. unfold patterns.
  assert (V : validate data = Some data) by (destruct data; [congruence | reflexivity]).
  rewrite V, (new_some st data Hne).
  match goal with |- context [rule_step ?zz] => set (z := zz) end.
  assert (Hz : Zone.zones z = Zone.make_zones (ss_mean st) (ss_standardDeviation st))
    by reflexivity.
  cbv zeta. replace (List.length (Zone.zones z)) with 3%nat by reflexivity.
  cbn [seq fold_left]. rewrite initial_report_of.
  rewrite !(rule_step_report_of st) by (try exact Hz; unfold visited; simpl; tauto).
  unfold delta_runs, echo_runs, hotel_runs, visited. cbn [flat_map app].
  rewrite !app_nil_r, <- !app_assoc. reflexivity.
Qed.

Lemma patterns_collapse (st : Stats) (data : list Q) :
  data <> [] ->
  patterns st data true =
    collapse (report_of st (delta_runs data (ss_mean st)) (echo_runs data) (hotel_runs data)).
Proof.
  intros Hne. pose proof (patterns_raw st data Hne) as H. revert H.
  unfold patterns.
  destruct (validate data); [|discriminate].
  destruct (Zone.new st l); [|discriminate].
  cbv zeta. intros H. injection H as ->. reflexivity.
Qed.

Lemma patterns_some_nonempty (st : Stats) (data : list Q) (c : bool) (r : report) :
  patterns st data c = Some r -> data <> [].
Proof. intros H ->. discriminate H. Qed.

(** ** collapse: the set and the sort *)

Lemma InQ_nil (x : Q) : ~ InQ x [].
Proof. intros (y & [] & _). Qed.

Lemma InQ_cons (x a : Q) (l : list Q) : InQ x (a :: l) <-> a == x \/ InQ x l.
Proof.
  unfold InQ; split.
  - intros (y & [<-|Hy] & E); [left; exact E | right; exists y; auto].
  - intros [E | (y & Hy & E)]; [exists a | exists y]; simpl; auto.
Qed.

Lemma InQ_app (x : Q) (l1 l2 : list Q) : InQ x (l1 ++ l2) <-> InQ x l1 \/ InQ x l2.
Proof.
  unfold InQ; split.
  - intros (y & Hy & E). apply in_app_or in Hy. destruct Hy; [left | right]; exists y; auto.
  - intros [(y & Hy & E) | (y & Hy & E)]; exists y; split; auto using in_or_app.
Qed.

Lemma In_InQ (x : Q) (l : list Q) : In x l -> InQ x l.
Proof. intros H; exists x; split; [exact H | reflexivity]. Qed.

Lemma InQ_eq (x y : Q) (l : list Q) : x == y -> InQ x l -> InQ y l.
Proof. intros E (w & Hw & E'). exists w. split; [exact Hw | rewrite E'; exact E]. Qed.

Lemma set_has_spec (s : list Q) (x : Q) : set_has s x = true <-> InQ x s.
Proof.
  unfold set_has, InQ. rewrite existsb_exists.
  split; intros (y & Hy & E); exists y; split; trivial.
  - apply Qeq_bool_iff in E. symmetry; exact E.
  - apply Qeq_bool_iff. symmetry; exact E.
Qed.

Lemma distinct_app_one (s : list Q) (x : Q) :
  distinct s -> ~ InQ x s -> distinct (s ++ [x]).
Proof.
  induction s as [|a s IH]; simpl; intros D N.
  - split; [apply InQ_nil | exact I].
  - destruct D as [Da Ds]. split.
    + rewrite InQ_app. intros [H | H]; [exact (Da H)|].
      apply InQ_cons in H. destruct H as [H | H]; [|exact (InQ_nil _ H)].
      apply N. apply InQ_cons. left. symmetry; exact H.
    + apply IH; [exact Ds|]. intros H. apply N. apply InQ_cons. right; exact H.
Qed.

Lemma set_add_spec (s : list Q) (x : Q) :
  (forall y, In y (set_add s x) -> In y s \/ y = x) /\
  (forall y, InQ y (set_add s x) <-> InQ y s \/ x == y) /\
  (distinct s -> distinct (set_add s x)).
Proof.
  unfold set_add. destruct (set_has s x) eqn:E.
  - apply set_has_spec in E. repeat split; auto.
    intros [H | H]; [exact H | exact (InQ_eq _ _ _ H E)].
  - assert (N : ~ InQ x s) by (rewrite <- set_has_spec, E; discriminate).
    split; [|split].
    + intros y Hy. apply in_app_or in Hy. destruct Hy as [H | [<- | []]]; auto.
    + intros y. rewrite InQ_app, InQ_cons. split; [|tauto].
      intros [H | [H | H]]; auto. destruct (InQ_nil _ H).
    + intros D. apply distinct_app_one; assumption.
Qed.

Lemma fold_set_add_spec (c s : list Q) :
  (forall y, In y (fold_left set_add c s) -> In y s \/ In y c) /\
  (forall y, InQ y (fold_left set_add c s) <-> InQ y s \/ InQ y c) /\
  (distinct s -> distinct (fold_left set_add c s)).
Proof.
  revert s. induction c as [|x c IH]; intros s; simpl.
  - repeat split; auto. intros [H | H]; [exact H | destruct (InQ_nil _ H)].
  - destruct (IH (set_add s x)) as (I1 & I2 & I3).
    destruct (set_add_spec s x) as (A1 & A2 & A3).
    split; [|split].
    + intros y Hy. destruct (I1 y Hy) as [H | H]; [|auto].
      destruct (A1 y H) as [H' | ->]; auto.
    + intros y. rewrite I2, A2, InQ_cons. tauto.
    + intros D. apply I3, A3, D.
Qed.

Lemma new_Set_spec (c : list Q) :
  (forall y, In y (new_Set c) -> In y c) /\
  (forall y, InQ y (new_Set c) <-> InQ y c) /\
  distinct (new_Set c).
Proof.
  unfold new_Set. destruct (fold_set_add_spec c []) as (I1 & I2 & I3).
  split; [|split].
  - intros y Hy. destruct (I1 y Hy) as [[] | H]; exact H.
  - intros y. rewrite I2. split; [|tauto].
    intros [H | H]; [destruct (InQ_nil _ H) | exact H].
  - apply I3. exact I.
Qed.

Lemma sort_insert_In (x y : Q) (l : list Q) :
  In y (sort_insert x l) <-> y = x \/ In y l.
Proof.
  induction l as [|a l IH]; simpl.
  - intuition.
  - destruct (Qle_bool x a); simpl; [intuition | rewrite IH; intuition].
Qed.

Lemma sort_numeric_In (y : Q) (l : list Q) : In y (sort_numeric l) <-> In y l.
Proof.
  induction l as [|a l IH]; simpl; [tauto|].
  rewrite sort_insert_In, IH. intuition.
Qed.

Lemma sort_numeric_InQ (y : Q) (l : list Q) : InQ y (sort_numeric l) <-> InQ y l.
Proof.
  unfold InQ; split; intros (w & Hw & E); exists w; split; trivial;
    apply sort_numeric_In; exact Hw.
Qed.

Lemma sort_insert_increasing (x : Q) (l : list Q) :
  increasing l -> ~ InQ x l -> increasing (sort_insert x l).
Proof.
  unfold increasing. induction 1 as [|a l Hl IH Ha]; intros N; simpl.
  - repeat constructor.
  - assert (Nl : ~ InQ x l) by (intros H; apply N, InQ_cons; right; exact H).
    assert (Na : ~ a == x) by (intros H; apply N, InQ_cons; left; exact H).
    destruct (Qle_bool x a) eqn:E.
    + apply Qle_bool_iff in E.
      assert (Lt : x < a).
      { apply Qle_lteq in E. destruct E as [E | E]; [exact E|].
        exfalso; apply Na; symmetry; exact E. }
      constructor; [constructor; assumption|].
      constructor; [exact Lt|].
      eapply Forall_impl; [|exact Ha]. intros b Hb. eapply Qlt_trans; eassumption.
    + assert (Lt : a < x).
      { apply Qnot_le_lt. intros H. apply Qle_bool_iff in H. congruence. }
      constructor; [apply IH; exact Nl|].
      apply Forall_forall. intros b Hb. apply sort_insert_In in Hb.
      destruct Hb as [-> | Hb]; [exact Lt|].
      rewrite Forall_forall in Ha. apply Ha; exact Hb.
Qed.

Lemma sort_numeric_increasing (l : list Q) : distinct l -> increasing (sort_numeric l).
Proof.
  induction l as [|a l IH]; simpl; intros D.
  - constructor.
  - destruct D as [Na D]. apply sort_insert_increasing; [apply IH; exact D|].
    rewrite sort_numeric_InQ. exact Na.
Qed.

Lemma increasing_distinct (l : list Q) : increasing l -> distinct l.
Proof.
  induction 1 as [|a l Hl IH Ha]; simpl; [exact I|].
  split; [|exact IH]. intros (y & Hy & E).
  rewrite Forall_forall in Ha. specialize (Ha y Hy). rewrite E in Ha.
  exact (Qlt_irrefl _ Ha).
Qed.

Lemma fold_set_add_distinct (c s : list Q) :
  distinct (s ++ c) -> fold_left set_add c s = s ++ c.
Proof.
  revert s. induction c as [|x c IH]; intros s D; simpl.
  - symmetry; apply app_nil_r.
  - assert (N : ~ InQ x s).
    { clear IH. induction s as [|a s IHs]; [apply InQ_nil|].
      simpl in D. destruct D as [Da D]. rewrite InQ_cons. intros [H | H].
      - apply Da. rewrite InQ_app. right. apply InQ_cons. left.
        symmetry; exact H.
      - exact (IHs D H). }
    unfold set_add at 2. destruct (set_has s x) eqn:E.
    + apply set_has_spec in E. contradiction.
    + rewrite IH; rewrite <- app_assoc; [reflexivity | exact D].
Qed.

Lemma new_Set_increasing (z : list Q) : increasing z -> new_Set z = z.
Proof.
  intros H. unfold new_Set. apply (fold_set_add_distinct z []).
  apply increasing_distinct; exact H.
Qed.

Lemma sort_numeric_sorted (z : list Q) : increasing z -> sort_numeric z = z.
Proof.
  induction 1 as [|a l Hl IH Ha]; simpl; [reflexivity|].
  rewrite IH. destruct l as [|b l]; [reflexivity|]. simpl.
  inversion Ha as [|? ? Hab _]; subst.
  destruct (Qle_bool a b) eqn:E; [reflexivity|].
  exfalso. apply Qlt_le_weak, Qle_bool_iff in Hab. congruence.
Qed.

Lemma sort_numeric_length (l : list Q) : List.length (sort_numeric l) = List.length l.
Proof.
  induction l as [|a l IH]; simpl; [reflexivity|].
  rewrite <- IH. generalize (sort_numeric l) as s. clear.
  induction s as [|b s IHs]; simpl; [reflexivity|].
  destruct (Qle_bool a b); simpl; [reflexivity | rewrite IHs; reflexivity].
Qed.

(** ** collapse: runs of indices *)

Lemma idx_inj (a b : nat) : idx a == idx b -> a = b.
Proof.
  unfold idx. intros H. apply Nat2Z.inj. apply inject_Z_injective. exact H.
Qed.

Lemma idx_lt (a b : nat) : idx a < idx b <-> (a < b)%nat.
Proof. unfold idx. rewrite <- Zlt_Qlt. lia. Qed.

Lemma idx_succ_eqb (x prev : nat) :
  Qeq_bool (idx x) (idx prev + 1) = Nat.eqb x (prev + 1).
Proof.
  assert (E : idx prev + 1 == idx (prev + 1)).
  { unfold idx. rewrite Nat2Z.inj_add, inject_Z_plus. reflexivity. }
  destruct (Nat.eqb x (prev + 1)) eqn:N.
  - apply Nat.eqb_eq in N. subst x. apply Qeq_bool_iff. symmetry; exact E.
  - apply Nat.eqb_neq in N. apply not_true_iff_false. intros H.
    apply Qeq_bool_iff in H. rewrite E in H. apply idx_inj in H. contradiction.
Qed.

Lemma idx_truthy (x : nat) : x <> O -> truthy (idx x) = true.
Proof.
  intros N. unfold truthy. apply negb_true_iff, not_true_iff_false.
  intros H. apply Qeq_bool_iff in H. apply N. apply idx_inj. exact H.
Qed.

Lemma seq_loop_idx (rest : list nat) :
  forall (acc : list (list Q)) (str : list nat) (prev : nat),
  Forall (fun x => x <> O) rest ->
  seq_loop acc (map idx str) (idx prev) (map idx rest) =
  acc ++ map (map idx) (group_from str prev rest).
Proof.
  induction rest as [|x rest IH]; intros acc str prev Hnz; simpl.
  - reflexivity.
  - inversion Hnz as [|? ? Hx Hr]; subst.
    rewrite idx_succ_eqb. destruct (Nat.eqb x (prev + 1)).
    + rewrite <- (IH acc (str ++ [x]) x Hr). rewrite map_app. reflexivity.
    + rewrite (idx_truthy x Hx).
      change [idx x] with (map idx [x]).
      rewrite (IH (acc ++ [map idx str]) [x] x Hr).
      rewrite <- app_assoc. reflexivity.
Qed.

Lemma group_from_nonempty (rest : list nat) (str : list nat) (prev : nat) :
  group_from str prev rest <> [].
Proof.
  revert str prev. induction rest as [|x rest IH]; intros str prev; simpl.
  - discriminate.
  - destruct (Nat.eqb x (prev + 1)); [apply IH | discriminate].
Qed.

Lemma last_seq (a n : nat) : last (seq a (S n)) O = (a + n)%nat.
Proof.
  rewrite seq_S, last_last. reflexivity.
Qed.

(** The runs of a strictly increasing list that continues the run
    [a .. a+n]: they are ranges, they are separated, the first starts at
    [a], and together they hold the same indices in the same order. *)
Lemma group_from_spec (rest : list nat) :
  forall a n,
  StronglySorted lt ((a + n)%nat :: rest) ->
  ranges (group_from (seq a (S n)) (a + n) rest) /\
  List.concat (group_from (seq a (S n)) (a + n) rest) = seq a (S n) ++ rest /\
  hd O (hd [] (group_from (seq a (S n)) (a + n) rest)) = a.
Proof.
  induction rest as [|x rest IH]; intros a n HS; cbn [group_from].
  - split; [split|split].
    + constructor; [exists a, n; reflexivity | constructor].
    + exact I.
    + cbn [List.concat]. rewrite !app_nil_r. reflexivity.
    + reflexivity.
  - inversion HS as [|? ? HS' Hall]; subst.
    inversion Hall as [|? ? Hx Hrest]; subst.
    destruct (Nat.eqb x (a + n + 1)) eqn:E.
    + apply Nat.eqb_eq in E. subst x.
      replace (seq a (S n) ++ [(a + n + 1)%nat]) with (seq a (S (S n))).
      2:{ rewrite (seq_S (S n) a). do 2 f_equal. lia. }
      replace (a + n + 1)%nat with (a + S n)%nat in * by lia.
      destruct (IH a (S n) HS') as (R & C & Hd).
      split; [exact R|]. split; [|exact Hd].
      rewrite C. rewrite (seq_S (S n) a). rewrite <- app_assoc. reflexivity.
    + apply Nat.eqb_neq in E.
      replace x with (x + 0)%nat in HS' by lia.
      destruct (IH x O HS') as (R & C & Hd).
      replace (x + 0)%nat with x in * by lia.
      change (seq x 1) with [x] in *.
      destruct R as [RF RS].
      pose proof (group_from_nonempty rest [x] x) as NE.
      destruct (group_from [x] x rest) as [|g2 gs'] eqn:G; [congruence|].
      cbn [hd] in Hd.
      split; [|split].
      * split.
        -- constructor; [exists a, n; reflexivity | exact RF].
        -- cbn [separated]. split; [|exact RS].
           rewrite last_seq, Hd. lia.
      * cbn [List.concat]. cbn [List.concat] in C. rewrite C. reflexivity.
      * reflexivity.
Qed.

Lemma group_spec (zn : list nat) :
  StronglySorted lt zn -> ranges (group zn) /\ List.concat (group zn) = zn.
Proof.
  destruct zn as [|z0 rest]; intros HS; cbn [group].
  - split; [split; [constructor | exact I] | reflexivity].
  - replace z0 with (z0 + 0)%nat in HS by lia.
    destruct (group_from_spec rest z0 O HS) as (R & C & _).
    replace (z0 + 0)%nat with z0 in * by lia.
    change (seq z0 1) with [z0] in *.
    split; [exact R | exact C].
Qed.

Lemma runs_value_idx (gs : list (list nat)) :
  runs_value (map (map idx) gs) = runs_field gs.
Proof.
  unfold runs_value, runs_field, run_value. f_equal.
  rewrite map_map. apply map_ext. intros g. rewrite map_map. reflexivity.
Qed.

Lemma map_idx_exists (P : nat -> Prop) (z : list Q) :
  (forall y, In y z -> exists j, y = idx j /\ P j) ->
  exists zn, z = map idx zn /\ Forall P zn.
Proof.
  induction z as [|y z IH]; intros H.
  - exists []. split; [reflexivity | constructor].
  - destruct (H y (or_introl eq_refl)) as (j & -> & Pj).
    destruct IH as (zn & -> & F); [intros w Hw; apply H; right; exact Hw|].
    exists (j :: zn). split; [reflexivity | constructor; assumption].
Qed.

Lemma increasing_idx (zn : list nat) :
  increasing (map idx zn) <-> StronglySorted lt zn.
Proof.
  unfold increasing. induction zn as [|a zn IH]; simpl.
  - split; constructor.
  - split; intros H; inversion H as [|? ? HS HF]; subst;
      (constructor; [apply IH; exact HS|]).
    + rewrite Forall_forall in *. intros b Hb. apply idx_lt, HF, in_map, Hb.
    + rewrite Forall_forall in *. intros y Hy. apply in_map_iff in Hy.
      destruct Hy as (b & <- & Hb). apply idx_lt, HF, Hb.
Qed.

Lemma InQ_map_idx (j : nat) (l : list nat) : InQ (idx j) (map idx l) <-> In j l.
Proof.
  split.
  - intros (y & Hy & E). apply in_map_iff in Hy. destruct Hy as (k & <- & Hk).
    apply idx_inj in E. subst; exact Hk.
  - intros H. apply In_InQ, in_map, H.
Qed.

(** The sorted set of a non-empty list of indices. *)
Lemma sorted_set_idx (c : list nat) :
  c <> [] ->
  exists zn,
    zn <> [] /\ StronglySorted lt zn /\ (forall j, In j zn <-> In j c) /\
    sort_numeric (new_Set (map idx c)) = map idx zn.
Proof.
  intros Hne.
  destruct (new_Set_spec (map idx c)) as (S1 & S2 & S3).
  destruct (map_idx_exists (fun j => In j c) (sort_numeric (new_Set (map idx c))))
    as (zn & Hz & Hin).
  { intros y Hy. apply sort_numeric_In, S1, in_map_iff in Hy.
    destruct Hy as (j & <- & Hj). exists j; auto. }
  assert (Mem : forall j, In j zn <-> In j c).
  { intros j. split.
    - rewrite Forall_forall in Hin. apply Hin.
    - intros Hj. apply InQ_map_idx. rewrite <- Hz.
      apply sort_numeric_InQ, S2, InQ_map_idx, Hj. }
  exists zn. repeat split; try apply Mem; trivial.
  - destruct c as [|j c]; [congruence|]. intros ->.
    destruct (proj2 (Mem j) (or_introl eq_refl)).
  - apply increasing_idx. rewrite <- Hz. apply sort_numeric_increasing, S3.
Qed.

Lemma sorted_tail_nonzero (z0 : nat) (rest : list nat) :
  StronglySorted lt (z0 :: rest) -> Forall (fun x => x <> O) rest.
Proof.
  intros H. inversion H as [|? ? _ HF]; subst.
  eapply Forall_impl; [|exact HF]. intros x Hx; simpl in Hx. lia.
Qed.

Lemma collapse_numbers_sorted (c : list Q) (zn : list nat) :
  zn <> [] -> StronglySorted lt zn ->
  sort_numeric (new_Set c) = map idx zn ->
  collapse_numbers c = Some (runs_field (group zn)).
Proof.
  intros Hne HS Hz. unfold collapse_numbers. rewrite Hz.
  destruct zn as [|z0 rest]; [congruence|]. cbn [map group].
  change [idx z0] with (map idx [z0]).
  rewrite seq_loop_idx by (eapply sorted_tail_nonzero; exact HS).
  cbn [app]. rewrite runs_value_idx. reflexivity.
Qed.

Lemma numbers_idx (l : list nat) :
  numbers (map (fun j => VNum (idx j)) l) = Some (map idx l).
Proof. induction l as [|j l IH]; simpl; [|rewrite IH]; reflexivity. Qed.

Lemma flatten_runs (runs : list (list nat)) (acc : list value) :
  fold_left concat1 (map run_value runs) acc =
  acc ++ map (fun j => VNum (idx j)) (List.concat runs).
Proof.
  revert acc. induction runs as [|r runs IH]; intros acc; simpl.
  - symmetry; apply app_nil_r.
  - rewrite IH, map_app, app_assoc. reflexivity.
Qed.

Lemma collapse_field_runs_numbers (runs : list (list nat)) :
  runs <> [] ->
  collapse_field (runs_field runs) = collapse_numbers (map idx (List.concat runs)).
Proof.
  intros Hne. destruct runs as [|r runs]; [congruence|].
  unfold runs_field, collapse_field. rewrite map_cons.
  rewrite <- (map_cons run_value r runs), flatten_runs. cbn [app].
  rewrite numbers_idx. reflexivity.
Qed.

(** What [collapse] stores for a field that holds runs of indices: the
    runs of the sorted set of those indices. *)
Lemma collapse_field_runs (runs : list (list nat)) :
  List.concat runs <> [] ->
  exists zn,
    zn <> [] /\ StronglySorted lt zn /\
    (forall j, In j zn <-> In j (List.concat runs)) /\
    collapse_field (runs_field runs) = Some (runs_field (group zn)).
Proof.
  intros Hne.
  destruct (sorted_set_idx (List.concat runs) Hne) as (zn & Hz & HS & Mem & E).
  exists zn. repeat split; try apply Mem; trivial.
  rewrite collapse_field_runs_numbers by (intros ->; apply Hne; reflexivity).
  apply collapse_numbers_sorted; assumption.
Qed.

(** Collapsing such a field once more changes nothing. *)
Lemma collapse_field_group (zn : list nat) :
  zn <> [] -> StronglySorted lt zn ->
  collapse_field (runs_field (group zn)) = Some (runs_field (group zn)).
Proof.
  intros Hne HS. destruct (group_spec zn HS) as [_ C].
  rewrite collapse_field_runs_numbers.
  - rewrite C. apply collapse_numbers_sorted; trivial.
    assert (I : increasing (map idx zn)) by (apply increasing_idx; exact HS).
    rewrite (new_Set_increasing _ I). apply sort_numeric_sorted, I.
  - intros E. rewrite E in C. simpl in C. congruence.
Qed.

(** ** The value rules report full windows only *)

Lemma subseq_empty (l : list nat) : subseq [] l.
Proof. induction l; constructor; assumption. Qed.

Lemma subseq_length (sub l : list nat) :
  subseq sub l -> (List.length sub <= List.length l)%nat.
Proof. induction 1; simpl; lia. Qed.

Lemma subseq_full (sub l : list nat) :
  subseq sub l -> (List.length l <= List.length sub)%nat -> sub = l.
Proof.
  induction 1 as [|x sub l H IH|x sub l H IH]; simpl; intros L.
  - reflexivity.
  - apply subseq_length in H. lia.
  - f_equal. apply IH. lia.
Qed.

Lemma seq_defined (data : list Q) (i L : nat) :
  Forall (fun j => (j < List.length data)%nat) (seq i L) ->
  (L = 0 \/ i + L <= List.length data)%nat.
Proof.
  destruct L as [|L]; [left; reflexivity | right].
  rewrite Forall_forall in H. specialize (H (i + L)%nat).
  assert (In (i + L)%nat (seq i (S L))) by (apply in_seq; lia).
  specialize (H H0). lia.
Qed.

Lemma delta_step_cases (data : list Q) (mean : Q) (s : side) (j : nat) :
  delta_step data mean s j = s \/
  ((j < List.length data)%nat /\
   d_pts (delta_step data mean s j) = d_pts s ++ [j] /\
   (d_count (delta_step data mean s j) <= S (d_count s))%nat).
Proof.
  unfold delta_step. destruct (nth_error data j) as [x|] eqn:E; [right | left; reflexivity].
  split; [apply nth_error_Some; congruence|].
  cbn [d_pts d_count]. split; [reflexivity|].
  destruct (Nat.eqb _ 1); [destruct (gtb x mean) | destruct (d_above s) as [[|]|]];
    repeat match goal with |- context [if ?c then _ else _] => destruct c end; lia.
Qed.

Lemma delta_fold (data : list Q) (mean : Q) (js : list nat) :
  forall s, exists sub,
    subseq sub js /\ Forall (fun j => (j < List.length data)%nat) sub /\
    d_pts (fold_left (delta_step data mean) js s) = d_pts s ++ sub /\
    (d_count (fold_left (delta_step data mean) js s) <= d_count s + List.length sub)%nat.
Proof.
  induction js as [|j js IH]; intros s; simpl.
  - exists []. split; [constructor|]. split; [constructor|].
    split; [symmetry; apply app_nil_r | simpl; lia].
  - destruct (delta_step_cases data mean s j) as [-> | (Hj & Hp & Hc)].
    + destruct (IH s) as (sub & S1 & S2 & S3 & S4).
      exists sub. repeat split; trivial. constructor; exact S1.
    + destruct (IH (delta_step data mean s j)) as (sub & S1 & S2 & S3 & S4).
      exists (j :: sub). split; [constructor; exact S1|].
      split; [constructor; assumption|].
      rewrite S3, Hp, <- app_assoc. split; [reflexivity | simpl; lia].
Qed.

Lemma echo_step_cases (data : list Q) (s : trend) (j : nat) :
  echo_step data s j = s \/
  ((j < List.length data)%nat /\
   t_pts (echo_step data s j) = t_pts s ++ [j] /\
   t_count (echo_step data s j) = S (t_count s)).
Proof.
  unfold echo_step. destruct (nth_error data j) as [x|] eqn:E; [|left; reflexivity].
  assert (D : (j < List.length data)%nat) by (apply nth_error_Some; congruence).
  repeat match goal with |- context [if ?c then _ else _] => destruct c end;
    (left; reflexivity) || (right; repeat split; trivial).
Qed.

Lemma echo_fold (data : list Q) (js : list nat) :
  forall s, exists sub,
    subseq sub js /\ Forall (fun j => (j < List.length data)%nat) sub /\
    t_pts (fold_left (echo_step data) js s) = t_pts s ++ sub /\
    t_count (fold_left (echo_step data) js s) = (t_count s + List.length sub)%nat.
Proof.
  induction js as [|j js IH]; intros s; simpl.
  - exists []. split; [constructor|]. split; [constructor|].
    split; [symmetry; apply app_nil_r | simpl; lia].
  - destruct (echo_step_cases data s j) as [-> | (Hj & Hp & Hc)].
    + destruct (IH s) as (sub & S1 & S2 & S3 & S4).
      exists sub. repeat split; trivial. constructor; exact S1.
    + destruct (IH (echo_step data s j)) as (sub & S1 & S2 & S3 & S4).
      exists (j :: sub). split; [constructor; exact S1|].
      split; [constructor; assumption|].
      rewrite S3, S4, Hp, Hc, <- app_assoc. split; [reflexivity | simpl; lia].
Qed.

Lemma hotel_fold (data : list Q) (js : list nat) :
  forall s, exists sub,
    subseq sub js /\ Forall (fun j => (j < List.length data)%nat) sub /\
    t_pts (hotel_scan data js s) = t_pts s ++ sub /\
    t_count (hotel_scan data js s) = (t_count s + List.length sub)%nat.
Proof.
  induction js as [|j js IH]; intros s; cbn [hotel_scan].
  - exists []. split; [constructor|]. split; [constructor|].
    split; [symmetry; apply app_nil_r | simpl; lia].
  - assert (Stop : exists sub,
               subseq sub (j :: js) /\ Forall (fun j => (j < List.length data)%nat) sub /\
               t_pts s = t_pts s ++ sub /\ t_count s = (t_count s + List.length sub)%nat).
    { exists []. split; [apply subseq_empty|]. split; [constructor|].
      split; [symmetry; apply app_nil_r | simpl; lia]. }
    assert (Skip : exists sub,
               subseq sub (j :: js) /\ Forall (fun j => (j < List.length data)%nat) sub /\
               t_pts (hotel_scan data js s) = t_pts s ++ sub /\
               t_count (hotel_scan data js s) = (t_count s + List.length sub)%nat).
    { destruct (IH s) as (sub & S1 & S2 & S3 & S4).
      exists sub. repeat split; trivial. constructor; exact S1. }
    destruct (nth_error data j) as [x|] eqn:E; [|exact Skip].
    assert (D : (j < List.length data)%nat) by (apply nth_error_Some; congruence).
    assert (Take : forall prev dir,
               let s' := {| t_pts := t_pts s ++ [j]; t_count := S (t_count s);
                            t_prev := prev; t_dir := dir |} in
               exists sub,
                 subseq sub (j :: js) /\ Forall (fun j => (j < List.length data)%nat) sub /\
                 t_pts (hotel_scan data js s') = t_pts s ++ sub /\
                 t_count (hotel_scan data js s') = (t_count s + List.length sub)%nat).
    { intros prev dir s'. destruct (IH s') as (sub & S1 & S2 & S3 & S4).
      exists (j :: sub). split; [constructor; exact S1|].
      split; [constructor; assumption|].
      rewrite S3, S4. subst s'. cbn [t_pts t_count]. rewrite <- app_assoc.
      split; [reflexivity | simpl; lia]. }
    repeat match goal with |- context [if ?c then _ else _] => destruct c end;
      solve [exact Stop | apply Take].
Qed.

Lemma delta_at_window (data : list Q) (mean : Q) (i : nat) (run : list nat) :
  In run (delta_at data mean i) ->
  run = seq i 7 /\ (i + 7 <= List.length data)%nat.
Proof.
  unfold delta_at, delta_loop.
  destruct (delta_fold data mean (seq i 7) {| d_pts := []; d_count := O; d_above := None |})
    as (sub & S1 & S2 & S3 & S4).
  cbn [d_pts d_count app] in S3, S4.
  destruct (7 <=? _)%nat eqn:E; [|intros []].
  apply Nat.leb_le in E. intros [<- | []].
  assert (F : sub = seq i 7) by (apply subseq_full; [exact S1 | rewrite length_seq; lia]).
  rewrite S3, F. rewrite F in S2. split; [reflexivity|].
  destruct (seq_defined data i 7 S2); [discriminate | assumption].
Qed.

Lemma echo_at_window (data : list Q) (i : nat) (run : list nat) :
  In run (echo_at data i) ->
  run = seq i 7 /\ (i + 7 <= List.length data)%nat.
Proof.
  unfold echo_at, echo_loop.
  destruct (echo_fold data (seq i 7) trend_init) as (sub & S1 & S2 & S3 & S4).
  cbn [trend_init t_pts t_count app] in S3, S4.
  destruct (7 <=? _)%nat eqn:E; [|intros []].
  apply Nat.leb_le in E. intros [<- | []].
  assert (F : sub = seq i 7) by (apply subseq_full; [exact S1 | rewrite length_seq; lia]).
  rewrite S3, F. rewrite F in S2. split; [reflexivity|].
  destruct (seq_defined data i 7 S2); [discriminate | assumption].
Qed.

Lemma hotel_at_window (data : list Q) (i : nat) (run : list nat) :
  In run (hotel_at data i) ->
  run = seq i 14 /\ (i + 14 <= List.length data)%nat.
Proof.
  unfold hotel_at, hotel_loop.
  destruct (hotel_fold data (seq i 14) trend_init) as (sub & S1 & S2 & S3 & S4).
  cbn [trend_init t_pts t_count app] in S3, S4.
  destruct (14 <=? _)%nat eqn:E; [|intros []].
  apply Nat.leb_le in E. intros [<- | []].
  assert (F : sub = seq i 14) by (apply subseq_full; [exact S1 | rewrite length_seq; lia]).
  rewrite S3, F. rewrite F in S2. split; [reflexivity|].
  destruct (seq_defined data i 14 S2); [discriminate | assumption].
Qed.

Lemma flat_map_window (n L : nat) (f : nat -> list (list nat)) :
  (forall i run, In run (f i) -> run = seq i L /\ (i + L <= n)%nat) ->
  Forall (window n L) (flat_map f visited).
Proof.
  intros H. apply Forall_forall. intros run Hr.
  apply in_flat_map in Hr. destruct Hr as (i & Hi & Hr).
  destruct (H i run Hr) as [-> Hn]. exists i. auto.
Qed.

Lemma delta_runs_windows (data : list Q) (mean : Q) :
  Forall (window (List.length data) 7) (delta_runs data mean).
Proof. apply flat_map_window. apply delta_at_window. Qed.

Lemma echo_runs_windows (data : list Q) :
  Forall (window (List.length data) 7) (echo_runs data).
Proof. apply flat_map_window. apply echo_at_window. Qed.

Lemma hotel_runs_windows (data : list Q) :
  Forall (window (List.length data) 14) (hotel_runs data).
Proof. apply flat_map_window. apply hotel_at_window. Qed.

(** ** collapse on reports *)

Lemma get_collapse (p c : report) (k : string) :
  collapse p = Some c ->
  get c k =
    match get p k with
    | None => None
    | Some v => if starts_with_underscore k then Some v else collapse_field v
    end.
Proof.
  revert c. induction p as [|[j v] p IH]; intros c H; simpl in H.
  - injection H as <-. reflexivity.
  - destruct (if starts_with_underscore j then Some v else collapse_field v)
      as [v'|] eqn:E; [|discriminate].
    destruct (collapse p) as [out|]; [|discriminate].
    injection H as <-. simpl.
    destruct (String.eqb j k) eqn:K.
    + apply String.eqb_eq in K. subst k. symmetry; exact E.
    + apply IH. reflexivity.
Qed.

Lemma collapse_some (p : report) :
  Forall (fun kv => collapse_field (snd kv) <> None) p ->
  exists c, collapse p = Some c.
Proof.
  induction 1 as [|[j v] p Hv _ IH]; simpl.
  - exists []. reflexivity.
  - destruct IH as (out & ->). simpl in Hv.
    destruct (starts_with_underscore j).
    + eexists; reflexivity.
    + destruct (collapse_field v); [eexists; reflexivity | congruence].
Qed.

Lemma seq_loop_nonempty (rest : list Q) (acc : list (list Q)) (str : list Q) (prev : Q) :
  seq_loop acc str prev rest <> [].
Proof.
  revert acc str prev. induction rest as [|x rest IH]; intros acc str prev; simpl.
  - destruct acc; discriminate.
  - destruct (Qeq_bool x (prev + 1)); apply IH.
Qed.

(** A non-empty flat array of numbers is always regrouped, into at least
    one run. *)
Lemma collapse_numbers_some (c : list Q) :
  c <> [] -> exists gs, gs <> [] /\ collapse_numbers c = Some (runs_value gs).
Proof.
  intros Hne. unfold collapse_numbers.
  destruct (sort_numeric (new_Set c)) as [|z0 rest] eqn:E.
  - exfalso. destruct c as [|x c]; [congruence|].
    destruct (new_Set_spec (x :: c)) as (_ & S2 & _).
    assert (H : InQ x (sort_numeric (new_Set (x :: c)))).
    { apply sort_numeric_InQ, S2, In_InQ. left; reflexivity. }
    rewrite E in H. exact (InQ_nil _ H).
  - eexists. split; [apply seq_loop_nonempty | reflexivity].
Qed.

Lemma runs_value_not_pair (gs : list (list Q)) (a b : Q) :
  runs_value gs <> VArr [VNum a; VNum b].
Proof.
  unfold runs_value. destruct gs as [|g gs]; simpl; intros H; discriminate H.
Qed.

Lemma collapse_field_pair (a b : Q) :
  exists gs, gs <> [] /\ collapse_field (VArr [VNum a; VNum b]) = Some (runs_value gs).
Proof.
  change (collapse_field (VArr [VNum a; VNum b])) with (collapse_numbers [a; b]).
  apply collapse_numbers_some. discriminate.
Qed.

Lemma collapse_field_runs_total (runs : list (list nat)) :
  Forall (fun run => run <> []) runs ->
  exists gs,
    ranges gs /\ (forall j, In j (List.concat gs) <-> In j (List.concat runs)) /\
    collapse_field (runs_field runs) = Some (runs_field gs) /\
    collapse_field (runs_field gs) = Some (runs_field gs).
Proof.
  intros Hne. destruct runs as [|run runs].
  - exists []. repeat split; auto; constructor.
  - assert (C : List.concat (run :: runs) <> []).
    { inversion Hne; subst. destruct run; [congruence | discriminate]. }
    destruct (collapse_field_runs _ C) as (zn & Z1 & Z2 & Z3 & Z4).
    destruct (group_spec zn Z2) as [R Cz].
    exists (group zn). rewrite Cz.
    split; [exact R|]. split; [exact Z3|]. split; [exact Z4|].
    apply collapse_field_group; assumption.
Qed.

Lemma window_nonempty (n L : nat) (runs : list (list nat)) :
  (0 < L)%nat -> Forall (window n L) runs -> Forall (fun run => run <> []) runs.
Proof.
  intros HL. apply Forall_impl. intros run (i & _ & _ & ->).
  destruct L; [lia | discriminate].
Qed.

Lemma delta_runs_nonempty (data : list Q) (mean : Q) :
  Forall (fun run => run <> []) (delta_runs data mean).
Proof. eapply window_nonempty; [|apply delta_runs_windows]. lia. Qed.

Lemma echo_runs_nonempty (data : list Q) :
  Forall (fun run => run <> []) (echo_runs data).
Proof. eapply window_nonempty; [|apply echo_runs_windows]. lia. Qed.

Lemma hotel_runs_nonempty (data : list Q) :
  Forall (fun run => run <> []) (hotel_runs data).
Proof. eapply window_nonempty; [|apply hotel_runs_windows]. lia. Qed.

(** [collapse] returns on every report whose delta, echo and hotel runs
    are non-empty. *)
Lemma collapse_report_of (st : Stats) (dl el hl : list (list nat)) :
  Forall (fun run => run <> []) dl ->
  Forall (fun run => run <> []) el ->
  Forall (fun run => run <> []) hl ->
  exists c, collapse (report_of st dl el hl) = Some c.
Proof.
  intros Hd He Hh. apply collapse_some.
  destruct (collapse_field_runs_total dl Hd) as (gd & _ & _ & Ed & _).
  destruct (collapse_field_runs_total el He) as (ge & _ & _ & Ee & _).
  destruct (collapse_field_runs_total hl Hh) as (gh & _ & _ & Eh & _).
  unfold report_of.
  repeat (apply Forall_cons; [cbn [snd] | ]); try apply Forall_nil;
    try (rewrite ?Ed, ?Ee, ?Eh; discriminate);
    match goal with
    | |- collapse_field (VArr [VNum ?a; VNum ?b]) <> None =>
        destruct (collapse_field_pair a b) as (gs & _ & ->); discriminate
    end.
Qed.

(** [patterns] returns a report for every non-empty sample, in both modes. *)
Lemma patterns_total (st : Stats) (data : list Q) (c : bool) :
  data <> [] -> exists r, patterns st data c = Some r.
Proof.
  intros Hne. destruct c.
  - rewrite patterns_collapse by exact Hne.
    apply collapse_report_of;
      [apply delta_runs_nonempty | apply echo_runs_nonempty | apply hotel_runs_nonempty].
  - rewrite patterns_raw by exact Hne. eexists; reflexivity.
Qed.

(** ** The report of patterns *)

Lemma late_run_stats_exact : exact_stats late_run_stats late_run.
Proof.
  unfold exact_stats, late_run; simpl.
  repeat split; try reflexivity; try (unfold Qle; simpl; lia).
  - repeat constructor; unfold Qle; simpl; lia.
  - right; left; reflexivity.
  - left; reflexivity.
Qed.

Lemma zero_edge_stats_exact : exact_stats zero_edge_stats zero_edge.
Proof.
  unfold exact_stats, zero_edge; simpl.
  repeat split; try reflexivity; try (unfold Qle; simpl; lia).
  - repeat constructor; unfold Qle; simpl; lia.
  - left; reflexivity.
  - right; left; reflexivity.
Qed.

Lemma get_label_rule (st : Stats) (dl el hl : list (list nat)) (k : string) :
  In k label_rule_names -> get (report_of st dl el hl) k = Some (VArr []).
Proof.
  unfold label_rule_names. simpl.
  intros [<-|[<-|[<-|[<-|[<-|[]]]]]]; reflexivity.
Qed.

Lemma get_rule (st : Stats) (dl el hl : list (list nat)) (k : string) :
  In k rule_names ->
  exists runs,
    get (report_of st dl el hl) k = Some (runs_field runs) /\
    (runs = [] \/ runs = dl \/ runs = el \/ runs = hl).
Proof.
  unfold rule_names. simpl.
  intros [<-|[<-|[<-|[<-|[<-|[<-|[<-|[<-|[]]]]]]]]];
    solve [ exists []; split; [reflexivity | auto]
          | exists dl; split; [reflexivity | auto]
          | exists el; split; [reflexivity | auto]
          | exists hl; split; [reflexivity | auto] ].
Qed.

Lemma get_scalar (st : Stats) (dl el hl : list (list nat)) (k : string) :
  In k scalar_names ->
  exists v, get (report_of st dl el hl) k = Some v /\ collapse_field v = Some v.
Proof.
  unfold scalar_names. simpl.
  repeat (intros [<-|H]; [eexists; split; reflexivity | revert H]).
  intros [].
Qed.

Lemma get_sigma (st : Stats) (dl el hl : list (list nat)) (k : string) :
  In k sigma_names ->
  exists a b, get (report_of st dl el hl) k = Some (VArr [VNum a; VNum b]).
Proof.
  unfold sigma_names. simpl.
  repeat (intros [<-|H]; [do 2 eexists; reflexivity | revert H]).
  intros [].
Qed.

Lemma zones_at_not_string (st : Stats) (data : list Q) (z : Zone.t) :
  Zone.new st data = Some z ->
  List.length (Zone.zones z) = 3%nat /\
  forall j v s, zones_at z j = Some v -> strict_eq_string v s = false.
Proof.
  intros H. destruct (new_inv _ _ _ H) as (_ & _ & _ & Hz & _).
  split; [rewrite Hz; reflexivity|].
  intros j v s. unfold zones_at.
  destruct (nth_error (Zone.zones z) j); simpl; [|discriminate].
  intros E. injection E as <-. reflexivity.
Qed.

(** The counters of the label rules on a zone object of the constructor. *)
Lemma count_fold_hits_zero (z : Zone.t) (test : slot -> bool) (js : list nat) :
  (forall j v, zones_at z j = Some v -> test v = false) ->
  forall s, hits (fold_left (count_step z test) js s) = hits s.
Proof.
  intros T. induction js as [|j js IH]; intros s; simpl; [reflexivity|].
  rewrite IH. unfold count_step.
  destruct (zones_at z j) as [v|] eqn:E; [|reflexivity].
  cbn [hits]. rewrite (T j v E). reflexivity.
Qed.

Lemma count_fold_hits_le (z : Zone.t) (test : slot -> bool) (js : list nat) :
  forall s,
  (hits (fold_left (count_step z test) js s)
   <= hits s + List.length (filter (fun j => j <? List.length (Zone.zones z))%nat js))%nat.
Proof.
  induction js as [|j js IH]; intros s; simpl; [lia|].
  specialize (IH (count_step z test s j)).
  unfold count_step, zones_at in *.
  destruct (nth_error (Zone.zones z) j) as [zn|] eqn:E; cbn [option_map] in *.
  - assert (L : (j <? List.length (Zone.zones z))%nat = true).
    { apply Nat.ltb_lt, nth_error_Some. congruence. }
    rewrite L. cbn [hits List.length] in *.
    destruct (test (SZone zn)); lia.
  - assert (L : (j <? List.length (Zone.zones z))%nat = false).
    { apply Nat.ltb_ge, nth_error_None. exact E. }
    rewrite L. exact IH.
Qed.

Lemma defined_in_seq_le (n i L : nat) :
  (List.length (filter (fun j => j <? n)%nat (seq i L)) <= n)%nat.
Proof.
  apply Nat.le_trans with (List.length (seq 0 n)); [|rewrite length_seq; lia].
  apply NoDup_incl_length.
  - apply NoDup_filter, seq_NoDup.
  - intros j Hj. apply filter_In in Hj. destruct Hj as [_ Hj].
    apply Nat.ltb_lt in Hj. apply in_seq. lia.
Qed.

Lemma label_counters (st : Stats) (data : list Q) (z : Zone.t) (i L : nat) :
  Zone.new st data = Some z ->
  hits (count_loop z bravo_test i L) = O /\
  (hits (count_loop z charlie_test i L) <= 3)%nat /\
  (hits (count_loop z foxtrot_test i L) <= 3)%nat /\
  hits (count_loop z golf_test i L) = O.
Proof.
  intros H. destruct (zones_at_not_string _ _ _ H) as [Len NS].
  assert (B : forall test, (hits (count_loop z test i L) <= 3)%nat).
  { intros test. unfold count_loop.
    pose proof (count_fold_hits_le z test (seq i L) {| pts := []; hits := O |}) as Le.
    pose proof (defined_in_seq_le (List.length (Zone.zones z)) i L) as D.
    cbn [hits] in Le. lia. }
  split; [|split; [apply B | split; [apply B|]]].
  - unfold count_loop. rewrite count_fold_hits_zero; [reflexivity|].
    intros j v E. unfold bravo_test. rewrite !(NS j v _ E). reflexivity.
  - unfold count_loop. rewrite count_fold_hits_zero; [reflexivity|].
    intros j v E. unfold golf_test. exact (NS j v _ E).
Qed.

Lemma label_fields_empty (st : Stats) (data : list Q) (c : bool) (r : report) (k : string) :
  patterns st data c = Some r -> In k label_rule_names -> get r k = Some (VArr []).
Proof.
  intros H Hk. pose proof (patterns_some_nonempty _ _ _ _ H) as Hne.
  destruct c.
  - rewrite patterns_collapse in H by exact Hne.
    rewrite (get_collapse _ _ k H), get_label_rule by exact Hk.
    unfold label_rule_names in Hk. simpl in Hk.
    destruct Hk as [<-|[<-|[<-|[<-|[<-|[]]]]]]; reflexivity.
  - rewrite patterns_raw in H by exact Hne. injection H as <-.
    apply get_label_rule, Hk.
Qed.

(** C9: for every valid sample, in both modes, the alpha, bravo, charlie,
    foxtrot and golf fields of the report are empty: the zone object has
    three zone records, the slot of [z["zones"]] the rule loop reads is
    never strictly equal to a string, and the counters of bravo and golf
    stay at 0 and those of charlie and foxtrot stay at 3 or below, under
    the thresholds 2, 15, 4 and 8. *)
Theorem label_rules_never_fire (st : Stats) (data : list Q) (c : bool) :
  data <> [] ->
  (exists z, Zone.new st data = Some z /\
             List.length (Zone.zones z) = 3%nat /\
             (forall j v s, zones_at z j = Some v -> strict_eq_string v s = false) /\
             (forall i,
                hits (count_loop z bravo_test i 3) = O /\
                (hits (count_loop z charlie_test i 5) <= 3)%nat /\
                (hits (count_loop z foxtrot_test i 8) <= 3)%nat /\
                hits (count_loop z golf_test i 15) = O)) /\
  (exists r, patterns st data c = Some r /\
             Forall (fun k => get r k = Some (VArr [])) label_rule_names).
Proof.
  intros Hne. split.
  - eexists. split; [apply new_some; exact Hne|].
    pose proof (new_some st data Hne) as Hz.
    destruct (zones_at_not_string _ _ _ Hz) as [Len NS].
    split; [exact Len|]. split; [exact NS|].
    intros i.
    destruct (label_counters st data _ i 3 Hz) as (B & _ & _ & _).
    destruct (label_counters st data _ i 5 Hz) as (_ & C & _ & _).
    destruct (label_counters st data _ i 8 Hz) as (_ & _ & F & _).
    destruct (label_counters st data _ i 15 Hz) as (_ & _ & _ & G).
    repeat split; assumption.
  - destruct (patterns_total st data c Hne) as (r & Hr).
    exists r. split; [exact Hr|].
    apply Forall_forall. intros k Hk. eapply label_fields_empty; eassumption.
Qed.

Lemma label_rules_never_fire_witness :
  late_run <> [] /\
  exists r, patterns late_run_stats late_run true = Some r /\
            get r "alpha" = Some (VArr []) /\ get r "golf" = Some (VArr []).
Proof.
  split; [discriminate|].
  destruct (label_rules_never_fire late_run_stats late_run true) as (_ & r & Hr & F).
  - discriminate.
  - exists r. split; [exact Hr|].
    rewrite Forall_forall in F.
    split; apply F; unfold label_rule_names; simpl; tauto.
Defined.

Lemma rule_runs_nonempty (st : Stats) (data : list Q) (k : string) :
  In k rule_names ->
  exists runs,
    get (report_of st (delta_runs data (ss_mean st)) (echo_runs data) (hotel_runs data)) k
      = Some (runs_field runs) /\
    Forall (fun run => run <> []) runs.
Proof.
  intros Hk.
  destruct (get_rule st (delta_runs data (ss_mean st)) (echo_runs data) (hotel_runs data)
              k Hk) as (runs & G & [->|[->|[->| ->]]]);
    eexists; (split; [exact G|]);
    [ constructor | apply delta_runs_nonempty
    | apply echo_runs_nonempty | apply hotel_runs_nonempty ].
Qed.

Lemma patterns_both (st : Stats) (data : list Q) :
  data <> [] ->
  exists r c,
    patterns st data false = Some r /\ collapse r = Some c /\
    patterns st data true = Some c.
Proof.
  intros Hne. destruct (patterns_total st data true Hne) as (c & Hc).
  eexists. exists c. split; [apply patterns_raw; exact Hne|].
  split; [rewrite <- patterns_collapse; assumption | exact Hc].
Qed.

(** C8: for every report of [patterns] and every rule field, the collapsed
    field holds runs of consecutive indices that are sorted, disjoint and
    maximal, and an index occurs in them exactly when it occurs in the
    uncollapsed runs. *)
Theorem collapse_keeps_rule_indices (st : Stats) (data : list Q) (r : report) :
  patterns st data false = Some r ->
  exists c,
    collapse r = Some c /\ patterns st data true = Some c /\
    forall k, In k rule_names ->
      exists runs gs,
        get r k = Some (runs_field runs) /\
        get c k = Some (runs_field gs) /\
        ranges gs /\
        forall j, In j (List.concat gs) <-> In j (List.concat runs).
Proof.
  intros H. pose proof (patterns_some_nonempty _ _ _ _ H) as Hne.
  destruct (patterns_total st data true Hne) as (c & Hc).
  rewrite patterns_raw in H by exact Hne. injection H as <-.
  exists c. split; [rewrite <- patterns_collapse; assumption|].
  split; [exact Hc|].
  rewrite patterns_collapse in Hc by exact Hne.
  intros k Hk.
  destruct (rule_runs_nonempty st data k Hk) as (runs & G & N).
  destruct (collapse_field_runs_total runs N) as (gs & R & M & E & _).
  exists runs, gs. split; [exact G|]. split; [|split; assumption].
  rewrite (get_collapse _ _ k Hc), G.
  replace (starts_with_underscore k) with false; [exact E|].
  unfold rule_names in Hk. simpl in Hk.
  destruct Hk as [<-|[<-|[<-|[<-|[<-|[<-|[<-|[<-|[]]]]]]]]]; reflexivity.
Qed.

Lemma collapse_keeps_rule_indices_witness :
  patterns series60_stats series60 false
    = Some (report_of series60_stats [seq 0 7; seq 1 7] [] []) /\
  exists c,
    collapse (report_of series60_stats [seq 0 7; seq 1 7] [] []) = Some c /\
    get c "delta" = Some (runs_field [seq 0 8]).
Proof.
  assert (H : patterns series60_stats series60 false
              = Some (report_of series60_stats [seq 0 7; seq 1 7] [] []))
    by (vm_compute; reflexivity).
  split; [exact H|].
  destruct (collapse_keeps_rule_indices _ _ _ H) as (c & Hc & _ & _).
  exists c. split; [exact Hc|].
  vm_compute in Hc. injection Hc as <-. reflexivity.
Defined.

(** On the rule fields a second collapse changes nothing. *)
Lemma collapse_idempotent_on_rule_fields (st : Stats) (data : list Q) (c : report)
    (k : string) :
  patterns st data true = Some c ->
  In k rule_names ->
  exists v, get c k = Some v /\ collapse_field v = Some v.
Proof.
  intros Hc Hk. pose proof (patterns_some_nonempty _ _ _ _ Hc) as Hne.
  rewrite patterns_collapse in Hc by exact Hne.
  destruct (rule_runs_nonempty st data k Hk) as (runs & G & N).
  destruct (collapse_field_runs_total runs N) as (gs & _ & _ & E & E2).
  exists (runs_field gs). split; [|exact E2].
  rewrite (get_collapse _ _ k Hc), G.
  replace (starts_with_underscore k) with false; [exact E|].
  unfold rule_names in Hk. simpl in Hk.
  destruct Hk as [<-|[<-|[<-|[<-|[<-|[<-|[<-|[<-|[]]]]]]]]]; reflexivity.
Qed.

(** C4 on the code: [collapse] keeps the scalar statistics, but it
    regroups each of the five boundary pairs [1sigma] .. [5sigma] like a
    rule field, because their keys do not start with an underscore: the
    pair [[a, b]] becomes an array of runs. *)
Theorem collapse_reshapes_sigma_pairs (st : Stats) (data : list Q) (r c : report) :
  patterns st data false = Some r ->
  collapse r = Some c ->
  (forall k, In k scalar_names -> exists v, get r k = Some v /\ get c k = Some v) /\
  (forall k, In k sigma_names ->
     exists a b gs,
       get r k = Some (VArr [VNum a; VNum b]) /\
       get c k = Some (runs_value gs) /\
       gs <> [] /\
       get c k <> get r k).
Proof.
  intros H Hc. pose proof (patterns_some_nonempty _ _ _ _ H) as Hne.
  rewrite patterns_raw in H by exact Hne. injection H as <-.
  split; intros k Hk.
  - destruct (get_scalar st (delta_runs data (ss_mean st)) (echo_runs data)
                (hotel_runs data) k Hk) as (v & G & E).
    exists v. split; [exact G|].
    rewrite (get_collapse _ _ k Hc), G.
    replace (starts_with_underscore k) with false; [exact E|].
    unfold scalar_names in Hk. simpl in Hk.
    repeat (destruct Hk as [<-|Hk]; [reflexivity|]). destruct Hk.
  - destruct (get_sigma st (delta_runs data (ss_mean st)) (echo_runs data)
                (hotel_runs data) k Hk) as (a & b & G).
    destruct (collapse_field_pair a b) as (gs & Ng & E).
    exists a, b, gs.
    assert (Gc : get c k = Some (runs_value gs)).
    { rewrite (get_collapse _ _ k Hc), G.
      replace (starts_with_underscore k) with false; [exact E|].
      unfold sigma_names in Hk. simpl in Hk.
      repeat (destruct Hk as [<-|Hk]; [reflexivity|]). destruct Hk. }
    repeat split; trivial.
    rewrite Gc, G. intros X. apply (runs_value_not_pair gs a b). congruence.
Qed.

Lemma collapse_reshapes_sigma_pairs_witness :
  patterns late_run_stats late_run false = Some (report_of late_run_stats [] [] []) /\
  exists c,
    collapse (report_of late_run_stats [] [] []) = Some c /\
    get (report_of late_run_stats [] [] []) "1sigma"
      = Some (VArr [VNum ((13 # 5) - (16 # 5)); VNum ((13 # 5) + (16 # 5))]) /\
    get c "1sigma" <> get (report_of late_run_stats [] [] []) "1sigma".
Proof.
  assert (H : patterns late_run_stats late_run false
              = Some (report_of late_run_stats [] [] []))
    by (vm_compute; reflexivity).
  split; [exact H|].
  destruct (collapse (report_of late_run_stats [] [] [])) as [c|] eqn:Hc;
    [|vm_compute in Hc; discriminate Hc].
  exists c. split; [reflexivity|]. split; [reflexivity|].
  destruct (collapse_reshapes_sigma_pairs _ _ _ _ H Hc) as [_ S].
  destruct (S "1sigma"%string) as (a & b & gs & _ & _ & _ & N).
  { unfold sigma_names; simpl; tauto. }
  exact N.
Defined.

(** C3 on the code: on the sample [-2, 0, -2, 0] the report holds
    [1sigma = [-2, 0]]; one collapse makes it [[-2], [-2]] (the number 0
    is falsy, so no new run starts at it and the old one is pushed again),
    a second collapse makes it [[-2]]: collapsing a collapsed report
    changes it. *)
Theorem collapse_twice_differs :
  exact_stats zero_edge_stats zero_edge /\
  exists r c1 c2,
    patterns zero_edge_stats zero_edge false = Some r /\
    collapse r = Some c1 /\
    collapse c1 = Some c2 /\
    get r "1sigma" = Some (VArr [VNum (-2); VNum 0]) /\
    get c1 "1sigma" = Some (VArr [VArr [VNum (-2)]; VArr [VNum (-2)]]) /\
    get c2 "1sigma" = Some (VArr [VArr [VNum (-2)]]) /\
    c2 <> c1.
Proof.
  split; [apply zero_edge_stats_exact|].
  destruct (patterns zero_edge_stats zero_edge false) as [r|] eqn:Hr;
    [|vm_compute in Hr; discriminate].
  destruct (collapse r) as [c1|] eqn:H1;
    [|vm_compute in Hr; injection Hr as <-; vm_compute in H1; discriminate].
  destruct (collapse c1) as [c2|] eqn:H2;
    [|vm_compute in Hr; injection Hr as <-; vm_compute in H1; injection H1 as <-;
      vm_compute in H2; discriminate].
  exists r, c1, c2.
  vm_compute in Hr; injection Hr as <-.
  vm_compute in H1; injection H1 as <-.
  vm_compute in H2; injection H2 as <-.
  repeat split; try reflexivity. discriminate.
Qed.

(** C2 on the code: on the README's 60-point series, whatever the
    statistics, alpha is empty in both modes (the README shows [46] and
    [[46]]); bravo is empty in both modes. *)
Theorem series60_alpha_empty (st : Stats) :
  exists r c,
    patterns st series60 false = Some r /\
    patterns st series60 true = Some c /\
    get r "alpha" = Some (VArr []) /\ get r "bravo" = Some (VArr []) /\
    get c "alpha" = Some (VArr []) /\ get c "bravo" = Some (VArr []).
Proof.
  destruct (patterns_both st series60) as (r & c & Hr & _ & Hc); [discriminate|].
  exists r, c. split; [exact Hr|]. split; [exact Hc|].
  repeat split;
    (eapply label_fields_empty; [eassumption | unfold label_rule_names; simpl; tauto]).
Qed.

(** With the statistics the README prints, the zone classifier does label
    point 46 of the series X. *)
Lemma series60_point_46 :
  exists z, Zone.new series60_stats series60 = Some z /\
            nth_error (Zone.data z) 46 = Some 87 /\
            nth_error (Zone.dataZones z) 46 = Some "X"%string.
Proof. eexists. split; [reflexivity|]. split; vm_compute; reflexivity. Qed.

(** Every run [patterns] reports is a full window that starts at index
    0, 1 or 2. *)
Lemma reported_runs_are_windows (st : Stats) (data : list Q) (r : report) :
  patterns st data false = Some r ->
  exists dl el hl,
    get r "delta" = Some (runs_field dl) /\
    get r "echo" = Some (runs_field el) /\
    get r "hotel" = Some (runs_field hl) /\
    Forall (window (List.length data) 7) dl /\
    Forall (window (List.length data) 7) el /\
    Forall (window (List.length data) 14) hl.
Proof.
  intros H. pose proof (patterns_some_nonempty _ _ _ _ H) as Hne.
  rewrite patterns_raw in H by exact Hne. injection H as <-.
  exists (delta_runs data (ss_mean st)), (echo_runs data), (hotel_runs data).
  repeat split; try reflexivity;
    [apply delta_runs_windows | apply echo_runs_windows | apply hotel_runs_windows].
Qed.

(** C1 on the code: in the sample [9, 1, 9, 1, 1, 1, 1, 1, 1, 1] the
    window of seven points that starts at index 3 fits and passes the
    delta test, and the report holds no delta run: the rule loop visits
    the start indices 0, 1 and 2 only. *)
Theorem late_window_not_reported :
  exact_stats late_run_stats late_run /\
  (3 + 7 <= List.length late_run)%nat /\
  delta_at late_run (ss_mean late_run_stats) 3 = [seq 3 7] /\
  ~ In 3%nat visited /\
  exists r,
    patterns late_run_stats late_run false = Some r /\
    get r "delta" = Some (VArr []).
Proof.
  split; [apply late_run_stats_exact|].
  split; [simpl; lia|]. split; [vm_compute; reflexivity|].
  split; [unfold visited; simpl; lia|].
  eexists. split; [apply patterns_raw; discriminate|].
  vm_compute. reflexivity.
Qed.

(** C7 on the code: the window [5, 5, 4, 3, 2, 1, 0] starts with two
    equal values, and echo reports it, whatever the statistics. *)
Theorem echo_flat_start_reported (st : Stats) :
  nth_error flat_start 0 = Some 5 /\
  nth_error flat_start 1 = Some 5 /\
  exists r,
    patterns st flat_start false = Some r /\
    get r "echo" = Some (runs_field [seq 0 7]).
Proof.
  split; [reflexivity|]. split; [reflexivity|].
  eexists. split; [apply patterns_raw; discriminate|].
  change (get (report_of st (delta_runs flat_start (ss_mean st)) (echo_runs flat_start)
                 (hotel_runs flat_start)) "echo")
    with (Some (runs_field (echo_runs flat_start))).
  vm_compute. reflexivity.
Qed.

(** ** When echo fires *)

Lemma echo_fold_le (data : list Q) (js : list nat) (s : trend) :
  (t_count (fold_left (echo_step data) js s) <= t_count s + List.length js)%nat.
Proof.
  destruct (echo_fold data js s) as (sub & S1 & _ & _ & S4).
  apply subseq_length in S1. lia.
Qed.

Lemma echo_step_later (data : list Q) (s : trend) (j : nat) (x : Q) :
  nth_error data j = Some x ->
  (2 <= List.length (t_pts s))%nat ->
  echo_step data s j =
    if (direction_eqb (t_dir s) Up && gtb x (t_prev s))
       || (direction_eqb (t_dir s) Down && ltb x (t_prev s))
    then {| t_pts := t_pts s ++ [j]; t_count := S (t_count s);
            t_prev := x; t_dir := t_dir s |}
    else s.
Proof.
  intros E L. unfold echo_step. rewrite E.
  destruct (t_pts s) as [|a [|b l]]; simpl in L; try lia.
  cbn [List.length Nat.eqb].
  destruct (direction_eqb (t_dir s) Up && gtb x (t_prev s)); [reflexivity|].
  destruct (direction_eqb (t_dir s) Down && ltb x (t_prev s)); reflexivity.
Qed.

(** From the third point on, every point of the window is counted exactly
    when the values keep rising (direction up) or keep falling (direction
    down). *)
Lemma echo_run (data : list Q) (js : list nat) (xs : list Q) :
  values_at data js xs ->
  forall s,
  (2 <= List.length (t_pts s))%nat ->
  (t_dir s = Up ->
   (t_count (fold_left (echo_step data) js s) = (t_count s + List.length js)%nat
    <-> chain Qlt (t_prev s) xs)) /\
  (t_dir s = Down ->
   (t_count (fold_left (echo_step data) js s) = (t_count s + List.length js)%nat
    <-> chain (fun a b => b < a) (t_prev s) xs)).
Proof.
  induction 1 as [|j x js xs Hj _ IH]; intros s L.
  - simpl. split; intros _; (split; [intros _; exact I | intros _; lia]).
  - cbn [fold_left List.length chain].
    rewrite (echo_step_later data s j x Hj L).
    split; intros D; rewrite D; cbn [direction_eqb andb orb].
    + destruct (gtb x (t_prev s)) eqn:G; cbn [orb].
      * apply gtb_lt in G.
        match goal with |- context [fold_left _ js ?s'] => set (s1 := s') end.
        destruct (IH s1) as [U _]; [subst s1; cbn [t_pts]; rewrite length_app; lia|].
        specialize (U eq_refl). subst s1. cbn [t_count t_prev] in U.
        rewrite <- U. split; [intros H; split; [exact G | lia] | intros [_ H]; lia].
      * apply gtb_false in G.
        pose proof (echo_fold_le data js s).
        split; [intros H'; lia | intros [H' _]; exfalso].
        exact (Qlt_not_le _ _ H' G).
    + destruct (ltb x (t_prev s)) eqn:G; cbn [orb].
      * apply ltb_lt in G.
        match goal with |- context [fold_left _ js ?s'] => set (s1 := s') end.
        destruct (IH s1) as [_ Dn]; [subst s1; cbn [t_pts]; rewrite length_app; lia|].
        specialize (Dn eq_refl). subst s1. cbn [t_count t_prev] in Dn.
        rewrite <- Dn. split; [intros H; split; [exact G | lia] | intros [_ H]; lia].
      * apply ltb_false in G.
        pose proof (echo_fold_le data js s).
        split; [intros H'; lia | intros [H' _]; exfalso].
        exact (Qlt_not_le _ _ H' G).
Qed.

Lemma echo_first (data : list Q) (i : nat) (x0 : Q) :
  nth_error data i = Some x0 ->
  echo_step data trend_init i =
    {| t_pts := [i]; t_count := 1; t_prev := x0; t_dir := NoDir |}.
Proof. intros H0. unfold echo_step. rewrite H0. reflexivity. Qed.

Lemma echo_second (data : list Q) (i j : nat) (x0 x1 : Q) :
  nth_error data j = Some x1 ->
  echo_step data {| t_pts := [i]; t_count := 1; t_prev := x0; t_dir := NoDir |} j =
    {| t_pts := [i; j]; t_count := 2; t_prev := x1;
       t_dir := if gtb x1 x0 then Up else Down |}.
Proof. intros H1. unfold echo_step. rewrite H1. reflexivity. Qed.

Lemma fold_left_two (A B : Type) (f : A -> B -> A) (a b : B) (l : list B) (s : A) :
  fold_left f (a :: b :: l) s = fold_left f l (f (f s a) b).
Proof. reflexivity. Qed.

Lemma seq_two (i n : nat) : seq i (S (S n)) = i :: S i :: seq (S (S i)) n.
Proof. reflexivity. Qed.

Lemma echo_loop_start (data : list Q) (i : nat) (x0 x1 : Q) :
  nth_error data i = Some x0 ->
  nth_error data (S i) = Some x1 ->
  echo_loop data i =
    fold_left (echo_step data) (seq (S (S i)) 5)
      {| t_pts := [i; S i]; t_count := 2; t_prev := x1;
         t_dir := if gtb x1 x0 then Up else Down |}.
Proof.
  intros H0 H1. unfold echo_loop. rewrite (seq_two i 5).
  rewrite fold_left_two.
  rewrite (echo_first data i x0 H0), (echo_second data i (S i) x0 x1 H1).
  reflexivity.
Qed.

Lemma echo_at_eq (data : list Q) (i : nat) :
  echo_at data i =
    if (7 <=? t_count (echo_loop data i))%nat then [t_pts (echo_loop data i)] else [].
Proof. reflexivity. Qed.

Lemma echo_at_fired (data : list Q) (i : nat) :
  echo_at data i = [seq i 7] <-> (7 <= t_count (echo_loop data i))%nat.
Proof.
  rewrite <- Nat.leb_le. split; intros H.
  - rewrite echo_at_eq in H.
    destruct (7 <=? t_count (echo_loop data i))%nat; [reflexivity | discriminate H].
  - assert (M : In (t_pts (echo_loop data i)) (echo_at data i)).
    { rewrite echo_at_eq, H. left; reflexivity. }
    apply echo_at_window in M. destruct M as [M _].
    rewrite echo_at_eq, H, M. reflexivity.
Qed.

(** echo reports a window that fits exactly when its values rise strictly
    at every step, or its second value is not above the first and the
    values fall strictly from the second on. *)
Lemma echo_fires_iff (data : list Q) (i : nat) (x0 x1 : Q) (rest : list Q) :
  values_at data (seq i 7) (x0 :: x1 :: rest) ->
  echo_at data i = [seq i 7] <->
  (x0 < x1 /\ chain Qlt x1 rest) \/
  (x1 <= x0 /\ chain (fun a b => b < a) x1 rest).
Proof.
  intros V. rewrite (seq_two i 5) in V.
  inversion V as [|? ? ? ? H0 V1]; subst.
  inversion V1 as [|? ? ? ? H1 V2]; subst. clear V V1.
  assert (V3 : values_at data (seq (S (S i)) 5) rest) by exact V2. clear V2.
  rewrite echo_at_fired, (echo_loop_start data i x0 x1 H0 H1).
  remember {| t_pts := [i; S i]; t_count := 2; t_prev := x1;
              t_dir := if gtb x1 x0 then Up else Down |} as s2 eqn:Hs2.
  remember (seq (S (S i)) 5) as js eqn:Hjs in *.
  assert (Len : List.length js = 5%nat) by (subst js; apply length_seq).
  assert (Hc : t_count s2 = 2%nat) by (subst s2; reflexivity).
  assert (Hp : t_prev s2 = x1) by (subst s2; reflexivity).
  assert (Hd : t_dir s2 = if gtb x1 x0 then Up else Down) by (subst s2; reflexivity).
  assert (Hl : (2 <= List.length (t_pts s2))%nat) by (subst s2; simpl; lia).
  clear Hs2 Hjs.
  pose proof (echo_fold_le data js s2) as Le.
  destruct (echo_run data js rest V3 s2 Hl) as [U Dn].
  rewrite Hc, Hp, Len in *.
  destruct (gtb x1 x0) eqn:G.
  - apply gtb_lt in G. specialize (U Hd).
    split.
    + intros H. left. split; [exact G|]. apply U. lia.
    + intros [[_ C] | [C _]]; [apply U in C; lia|].
      exfalso. exact (Qlt_not_le _ _ G C).
  - apply gtb_false in G. specialize (Dn Hd).
    split.
    + intros H. right. split; [exact G|]. apply Dn. lia.
    + intros [[C _] | [_ C]]; [|apply Dn in C; lia].
      exfalso. exact (Qlt_not_le _ _ C G).
Qed.

(** ** When delta fires *)

Lemma delta_fold_le (data : list Q) (mean : Q) (js : list nat) (s : side) :
  (d_count (fold_left (delta_step data mean) js s) <= d_count s + List.length js)%nat.
Proof.
  destruct (delta_fold data mean js s) as (sub & S1 & _ & _ & S4).
  apply subseq_length in S1. lia.
Qed.

Lemma delta_step_later (data : list Q) (mean : Q) (s : side) (j : nat) (x : Q) (b : bool) :
  nth_error data j = Some x ->
  (1 <= List.length (d_pts s))%nat ->
  d_above s = Some b ->
  delta_step data mean s j =
    {| d_pts := d_pts s ++ [j];
       d_count := if (if b then gtb x mean else ltb x mean)
                  then S (d_count s) else d_count s;
       d_above := Some b |}.
Proof.
  intros E L A. unfold delta_step. rewrite E, A.
  rewrite length_app. cbn [List.length].
  replace (List.length (d_pts s) + 1)%nat with (S (S (pred (List.length (d_pts s)))))
    by lia.
  cbn [Nat.eqb]. destruct b; reflexivity.
Qed.

Lemma delta_run (data : list Q) (mean : Q) (js : list nat) (xs : list Q) :
  values_at data js xs ->
  forall s b,
  (1 <= List.length (d_pts s))%nat ->
  d_above s = Some b ->
  (d_count (fold_left (delta_step data mean) js s) = (d_count s + List.length js)%nat
   <-> one_side mean b xs).
Proof.
  induction 1 as [|j x js xs Hj _ IH]; intros s b L A.
  - simpl. split; [intros _; constructor | intros _; lia].
  - cbn [fold_left List.length].
    rewrite (delta_step_later data mean s j x b Hj L A).
    match goal with |- context [fold_left _ js ?s'] => set (s1 := s') end.
    assert (L1 : (1 <= List.length (d_pts s1))%nat)
      by (subst s1; cbn [d_pts]; rewrite length_app; simpl; lia).
    specialize (IH s1 b L1 eq_refl).
    pose proof (delta_fold_le data mean js s1) as Le.
    assert (T : (if b then gtb x mean else ltb x mean) = true
                <-> (if b then mean < x else x < mean)).
    { destruct b; [apply gtb_lt | apply ltb_lt]. }
    subst s1. cbn [d_count] in *.
    destruct (if b then gtb x mean else ltb x mean) eqn:G.
    + split.
      * intros H. constructor; [apply T; reflexivity | apply IH; lia].
      * intros H. inversion H as [|? ? Hx Hr]; subst. apply IH in Hr. lia.
    + split.
      * intros H. lia.
      * intros H. inversion H as [|? ? Hx Hr]; subst. apply T in Hx. discriminate.
Qed.

Lemma fold_left_one (A B : Type) (f : A -> B -> A) (a : B) (l : list B) (s : A) :
  fold_left f (a :: l) s = fold_left f l (f s a).
Proof. reflexivity. Qed.

Lemma seq_one (i n : nat) : seq i (S n) = i :: seq (S i) n.
Proof. reflexivity. Qed.

Lemma delta_at_eq (data : list Q) (mean : Q) (i : nat) :
  delta_at data mean i =
    if (7 <=? d_count (delta_loop data mean i))%nat
    then [d_pts (delta_loop data mean i)] else [].
Proof. reflexivity. Qed.

Lemma delta_at_fired (data : list Q) (mean : Q) (i : nat) :
  delta_at data mean i = [seq i 7] <-> (7 <= d_count (delta_loop data mean i))%nat.
Proof.
  rewrite <- Nat.leb_le. split; intros H.
  - rewrite delta_at_eq in H.
    destruct (7 <=? d_count (delta_loop data mean i))%nat; [reflexivity | discriminate H].
  - assert (M : In (d_pts (delta_loop data mean i)) (delta_at data mean i)).
    { rewrite delta_at_eq, H. left; reflexivity. }
    apply delta_at_window in M. destruct M as [M _].
    rewrite delta_at_eq, H, M. reflexivity.
Qed.

(** delta reports a window that fits exactly when its seven values all lie
    strictly above the mean or all lie strictly below it. *)
Theorem delta_fires_iff (data : list Q) (mean : Q) (i : nat) (xs : list Q) :
  values_at data (seq i 7) xs ->
  delta_at data mean i = [seq i 7] <->
  one_side mean true xs \/ one_side mean false xs.
Proof.
  intros V. rewrite (seq_one i 6) in V.
  inversion V as [|? x0 ? rest H0 V1]; subst. clear V.
  assert (V2 : values_at data (seq (S i) 6) rest) by exact V1. clear V1.
  rewrite delta_at_fired. unfold delta_loop.
  rewrite (seq_one i 6), fold_left_one.
  assert (E1 : delta_step data mean {| d_pts := []; d_count := 0; d_above := None |} i =
               {| d_pts := [i];
                  d_count := if gtb x0 mean then 1 else if ltb x0 mean then 1 else 0;
                  d_above := Some (gtb x0 mean) |}).
  { unfold delta_step. rewrite H0. cbn [d_pts app List.length Nat.eqb d_count].
    destruct (gtb x0 mean); [reflexivity|]. destruct (ltb x0 mean); reflexivity. }
  rewrite E1. clear E1.
  remember {| d_pts := [i];
              d_count := if gtb x0 mean then 1 else if ltb x0 mean then 1 else 0;
              d_above := Some (gtb x0 mean) |} as s1 eqn:Hs1.
  remember (seq (S i) 6) as js eqn:Hjs in *.
  assert (Len : List.length js = 6%nat) by (subst js; apply length_seq).
  assert (Hc : d_count s1 = if gtb x0 mean then 1%nat else if ltb x0 mean then 1%nat else O)
    by (subst s1; reflexivity).
  assert (Ha : d_above s1 = Some (gtb x0 mean)) by (subst s1; reflexivity).
  assert (Hl : (1 <= List.length (d_pts s1))%nat) by (subst s1; simpl; lia).
  clear Hs1 Hjs.
  pose proof (delta_fold_le data mean js s1) as Le.
  pose proof (delta_run data mean js rest V2 s1 _ Hl Ha) as R.
  rewrite Len in *. unfold one_side in *.
  destruct (gtb x0 mean) eqn:G.
  - apply gtb_lt in G. rewrite Hc in *. split.
    + intros H. left. constructor; [exact G | apply R; lia].
    + intros [H | H]; inversion H as [|? ? Hx Hr]; subst.
      * apply R in Hr. lia.
      * exfalso. exact (Qlt_irrefl _ (Qlt_trans _ _ _ G Hx)).
  - apply gtb_false in G. destruct (ltb x0 mean) eqn:G2.
    + apply ltb_lt in G2. rewrite Hc in *. split.
      * intros H. right. constructor; [exact G2 | apply R; lia].
      * intros [H | H]; inversion H as [|? ? Hx Hr]; subst.
        -- exfalso. exact (Qlt_irrefl _ (Qlt_trans _ _ _ G2 Hx)).
        -- apply R in Hr. lia.
    + apply ltb_false in G2. rewrite Hc in *. split.
      * intros H. lia.
      * intros [H | H]; inversion H as [|? ? Hx Hr]; subst; exfalso.
        -- exact (Qlt_not_le _ _ Hx G).
        -- exact (Qlt_not_le _ _ Hx G2).
Qed.

(** ** When hotel fires *)

Lemma hotel_scan_le (data : list Q) (js : list nat) (s : trend) :
  (t_count (hotel_scan data js s) <= t_count s + List.length js)%nat.
Proof.
  destruct (hotel_fold data js s) as (sub & S1 & _ & _ & S4).
  apply subseq_length in S1. lia.
Qed.

(** One round of the hotel loop from the third point on: the point is
    taken, and the direction flips, exactly when it moves against the
    current direction; otherwise the loop breaks. *)
Lemma hotel_scan_later (data : list Q) (js : list nat) (s : trend) (j : nat) (x : Q)
    (up : bool) :
  nth_error data j = Some x ->
  (2 <= List.length (t_pts s))%nat ->
  t_dir s = (if up then Up else Down) ->
  hotel_scan data (j :: js) s =
    if (if up then ltb x (t_prev s) else gtb x (t_prev s))
    then hotel_scan data js
           {| t_pts := t_pts s ++ [j]; t_count := S (t_count s);
              t_prev := x; t_dir := if up then Down else Up |}
    else s.
Proof.
  intros E L D. cbn [hotel_scan]. rewrite E, D.
  destruct (t_pts s) as [|a [|b l]]; simpl in L; try lia.
  cbn [List.length Nat.eqb].
  destruct (Qeq_bool x (t_prev s)) eqn:EQ.
  - apply Qeq_bool_iff in EQ.
    assert (G1 : gtb x (t_prev s) = false) by (apply gtb_false; rewrite EQ; apply Qle_refl).
    assert (G2 : ltb x (t_prev s) = false) by (apply ltb_false; rewrite EQ; apply Qle_refl).
    rewrite G1, G2. destruct up; reflexivity.
  - assert (N : ~ x == t_prev s).
    { intros H. apply Qeq_bool_iff in H. congruence. }
    destruct (gtb x (t_prev s)) eqn:G1; destruct (ltb x (t_prev s)) eqn:G2.
    + apply gtb_lt in G1. apply ltb_lt in G2.
      exfalso. exact (Qlt_irrefl _ (Qlt_trans _ _ _ G1 G2)).
    + destruct up; reflexivity.
    + destruct up; reflexivity.
    + apply gtb_false in G1. apply ltb_false in G2.
      exfalso. apply N. apply Qle_antisym; assumption.
Qed.

Lemma hotel_run (data : list Q) (js : list nat) (xs : list Q) :
  values_at data js xs ->
  forall (s : trend) (up : bool),
  (2 <= List.length (t_pts s))%nat ->
  t_dir s = (if up then Up else Down) ->
  (t_count (hotel_scan data js s) = (t_count s + List.length js)%nat
   <-> zigzag up (t_prev s) xs).
Proof.
  induction 1 as [|j x js xs Hj _ IH]; intros s up L D.
  - simpl. split; [intros _; exact I | intros _; lia].
  - rewrite (hotel_scan_later data js s j x up Hj L D).
    cbn [List.length zigzag].
    assert (T : (if up then ltb x (t_prev s) else gtb x (t_prev s)) = true
                <-> (if up then x < t_prev s else t_prev s < x)).
    { destruct up; [apply ltb_lt | apply gtb_lt]. }
    destruct (if up then ltb x (t_prev s) else gtb x (t_prev s)) eqn:G.
    + match goal with |- context [hotel_scan data js ?s'] => set (s1 := s') end.
      assert (L1 : (2 <= List.length (t_pts s1))%nat)
        by (subst s1; cbn [t_pts]; rewrite length_app; lia).
      assert (D1 : t_dir s1 = if negb up then Up else Down)
        by (subst s1; destruct up; reflexivity).
      specialize (IH s1 (negb up) L1 D1).
      subst s1. cbn [t_count t_prev] in IH.
      split.
      * intros H. split; [apply T; reflexivity | apply IH; lia].
      * intros [_ H]. apply IH in H. lia.
    + split.
      * intros H. lia.
      * intros [H _]. apply T in H. discriminate.
Qed.

Lemma hotel_at_eq (data : list Q) (i : nat) :
  hotel_at data i =
    if (14 <=? t_count (hotel_loop data i))%nat then [t_pts (hotel_loop data i)] else [].
Proof. reflexivity. Qed.

Lemma hotel_at_fired (data : list Q) (i : nat) :
  hotel_at data i = [seq i 14] <-> (14 <= t_count (hotel_loop data i))%nat.
Proof.
  rewrite <- Nat.leb_le. split; intros H.
  - rewrite hotel_at_eq in H.
    destruct (14 <=? t_count (hotel_loop data i))%nat; [reflexivity | discriminate H].
  - assert (M : In (t_pts (hotel_loop data i)) (hotel_at data i)).
    { rewrite hotel_at_eq, H. left; reflexivity. }
    apply hotel_at_window in M. destruct M as [M _].
    rewrite hotel_at_eq, H, M. reflexivity.
Qed.

Lemma hotel_scan_first (data : list Q) (js : list nat) (j : nat) (x : Q) :
  nth_error data j = Some x ->
  hotel_scan data (j :: js) trend_init =
  hotel_scan data js {| t_pts := [j]; t_count := 1; t_prev := x; t_dir := NoDir |}.
Proof. intros E. cbn [hotel_scan]. rewrite E. reflexivity. Qed.

Lemma hotel_scan_second (data : list Q) (js : list nat) (i j : nat) (x0 x : Q) :
  nth_error data j = Some x ->
  hotel_scan data (j :: js) {| t_pts := [i]; t_count := 1; t_prev := x0; t_dir := NoDir |} =
  if Qeq_bool x x0
  then {| t_pts := [i]; t_count := 1; t_prev := x0; t_dir := NoDir |}
  else hotel_scan data js
         {| t_pts := [i; j]; t_count := 2; t_prev := x;
            t_dir := if gtb x x0 then Up else Down |}.
Proof. intros E. cbn [hotel_scan]. rewrite E. reflexivity. Qed.

(** hotel reports a window that fits exactly when its second value
    differs from the first and every later step reverses the direction of
    the step before it. *)
Theorem hotel_fires_iff (data : list Q) (i : nat) (x0 x1 : Q) (rest : list Q) :
  values_at data (seq i 14) (x0 :: x1 :: rest) ->
  hotel_at data i = [seq i 14] <->
  (x0 < x1 /\ zigzag true x1 rest) \/ (x1 < x0 /\ zigzag false x1 rest).
Proof.
  intros V. rewrite (seq_two i 12) in V.
  inversion V as [|? ? ? ? H0 V1]; subst.
  inversion V1 as [|? ? ? ? H1 V2]; subst. clear V V1.
  assert (V3 : values_at data (seq (S (S i)) 12) rest) by exact V2. clear V2.
  rewrite hotel_at_fired. unfold hotel_loop.
  rewrite (seq_two i 12), (hotel_scan_first data _ i x0 H0),
    (hotel_scan_second data _ i (S i) x0 x1 H1).
  remember (seq (S (S i)) 12) as js eqn:Hjs in *.
  assert (Len : List.length js = 12%nat) by (subst js; apply length_seq).
  clear Hjs.
  destruct (Qeq_bool x1 x0) eqn:EQ.
  - apply Qeq_bool_iff in EQ. cbn [t_count]. split; [intros H; lia|].
    intros [[H _] | [H _]]; rewrite EQ in H; exfalso; exact (Qlt_irrefl _ H).
  - assert (N : ~ x1 == x0) by (intros H; apply Qeq_bool_iff in H; congruence).
    remember {| t_pts := [i; S i]; t_count := 2; t_prev := x1;
                t_dir := if gtb x1 x0 then Up else Down |} as s2 eqn:Hs2.
    assert (Hc : t_count s2 = 2%nat) by (subst s2; reflexivity).
    assert (Hp : t_prev s2 = x1) by (subst s2; reflexivity).
    assert (Hd : t_dir s2 = if gtb x1 x0 then Up else Down) by (subst s2; reflexivity).
    assert (Hl : (2 <= List.length (t_pts s2))%nat) by (subst s2; simpl; lia).
    clear Hs2.
    pose proof (hotel_scan_le data js s2) as Le.
    pose proof (hotel_run data js rest V3 s2 (gtb x1 x0) Hl Hd) as R.
    rewrite Hc, Hp, Len in *.
    destruct (gtb x1 x0) eqn:G.
    + apply gtb_lt in G. split.
      * intros H. left. split; [exact G | apply R; lia].
      * intros [[_ C] | [C _]]; [apply R in C; lia|].
        exfalso. exact (Qlt_irrefl _ (Qlt_trans _ _ _ G C)).
    + apply gtb_false in G.
      assert (G' : x1 < x0).
      { apply Qle_lteq in G. destruct G as [G | G]; [exact G | contradiction]. }
      split.
      * intros H. right. split; [exact G' | apply R; lia].
      * intros [[C _] | [_ C]]; [|apply R in C; lia].
        exfalso. exact (Qlt_irrefl _ (Qlt_trans _ _ _ G' C)).
Qed.

(** ** The value rules, at concrete windows *)

Lemma echo_fires_iff_witness :
  values_at flat_start (seq 0 7) [5; 5; 4; 3; 2; 1; 0] /\
  echo_at flat_start 0 = [seq 0 7].
Proof.
  assert (V : values_at flat_start (seq 0 7) [5; 5; 4; 3; 2; 1; 0])
    by (repeat constructor).
  split; [exact V|].
  apply (proj2 (echo_fires_iff flat_start 0 5 5 [4; 3; 2; 1; 0] V)).
  right. simpl. repeat split; unfold Qle, Qlt; simpl; lia.
Defined.

Lemma delta_fires_iff_witness :
  values_at late_run (seq 3 7) [1; 1; 1; 1; 1; 1; 1] /\
  delta_at late_run (13 # 5) 3 = [seq 3 7].
Proof.
  assert (V : values_at late_run (seq 3 7) [1; 1; 1; 1; 1; 1; 1])
    by (repeat constructor).
  split; [exact V|].
  apply (proj2 (delta_fires_iff late_run (13 # 5) 3 _ V)).
  right. repeat constructor.
Defined.

Lemma hotel_fires_iff_witness :
  values_at [1; 2; 1; 2; 1; 2; 1; 2; 1; 2; 1; 2; 1; 2] (seq 0 14)
            [1; 2; 1; 2; 1; 2; 1; 2; 1; 2; 1; 2; 1; 2] /\
  hotel_at [1; 2; 1; 2; 1; 2; 1; 2; 1; 2; 1; 2; 1; 2] 0 = [seq 0 14].
Proof.
  assert (V : values_at [1; 2; 1; 2; 1; 2; 1; 2; 1; 2; 1; 2; 1; 2] (seq 0 14)
                        [1; 2; 1; 2; 1; 2; 1; 2; 1; 2; 1; 2; 1; 2])
    by (repeat constructor).
  split; [exact V|].
  apply (proj2 (hotel_fires_iff _ 0 1 2 _ V)).
  left. simpl. repeat split; unfold Qlt; simpl; lia.
Defined.

Lemma reported_runs_are_windows_witness :
  patterns series60_stats series60 false
    = Some (report_of series60_stats [seq 0 7; seq 1 7] [] []) /\
  exists dl el hl,
    get (report_of series60_stats [seq 0 7; seq 1 7] [] []) "delta"
      = Some (runs_field dl) /\
    get (report_of series60_stats [seq 0 7; seq 1 7] [] []) "echo"
      = Some (runs_field el) /\
    get (report_of series60_stats [seq 0 7; seq 1 7] [] []) "hotel"
      = Some (runs_field hl) /\
    Forall (window (List.length series60) 7) dl /\
    Forall (window (List.length series60) 7) el /\
    Forall (window (List.length series60) 14) hl.
Proof.
  assert (H : patterns series60_stats series60 false
              = Some (report_of series60_stats [seq 0 7; seq 1 7] [] []))
    by (vm_compute; reflexivity).
  split; [exact H|].
  exact (reported_runs_are_windows _ _ _ H).
Defined.

(** ** collapse on arbitrary objects *)

Lemma collapse_inv (p c : report) :
  collapse p = Some c ->
  Forall2 (fun kv kv' =>
             fst kv' = fst kv /\
             (if starts_with_underscore (fst kv) then Some (snd kv)
              else collapse_field (snd kv)) = Some (snd kv')) p c.
Proof.
  revert c. induction p as [|[j v] p IH]; intros c H; simpl in H.
  - injection H as <-. constructor.
  - destruct (if starts_with_underscore j then Some v else collapse_field v)
      as [v'|] eqn:E; [|discriminate].
    destruct (collapse p) as [out|]; [|discriminate].
    injection H as <-. constructor; [|apply IH; reflexivity].
    simpl. split; [reflexivity | exact E].
Qed.




Lemma flatten_empty_runs (m : nat) (acc : list value) :
  fold_left concat1 (repeat (VArr []) m) acc = acc.
Proof.
  induction m as [|m IH]; simpl; [reflexivity|].
  rewrite app_nil_r. exact IH.
Qed.

(** [collapse] throws when a key without an underscore holds a non-empty
    array whose elements are all empty arrays: the flattened array is
    empty and [z[0].toString()] is a TypeError. *)
Theorem collapse_throws_on_empty_runs (p : report) (k : string) (m : nat) :
  In (k, VArr (repeat (VArr []) (S m))) p ->
  starts_with_underscore k = false ->
  collapse p = None.
Proof.
  intros Hin Hk. destruct (collapse p) as [c|] eqn:E; [|reflexivity].
  exfalso. apply collapse_inv in E.
  induction E as [|[j v] [j' v'] p c [_ Hv] _ IH]; [destruct Hin|].
  destruct Hin as [Eq | Hin]; [|exact (IH Hin)].
  injection Eq as -> ->. simpl in Hv. rewrite Hk in Hv.
  change (collapse_field (VArr (repeat (VArr []) (S m))))
    with (match numbers (fold_left concat1 (repeat (VArr []) (S m)) []) with
          | None => None
          | Some c => collapse_numbers c
          end) in Hv.
  rewrite flatten_empty_runs in Hv. discriminate Hv.
Qed.

Lemma collapse_throws_on_empty_runs_witness :
  In ("a"%string, VArr [VArr []]) [("a"%string, VArr [VArr []])] /\
  collapse [("a"%string, VArr [VArr []])] = None.
Proof.
  split; [left; reflexivity|].
  apply (collapse_throws_on_empty_runs _ "a" 0); [left; reflexivity | reflexivity].
Defined.

(** [collapse] loses the number 0 when it follows a negative number other
    than -1: the pair [[a, 0]] becomes [[[a], [a]]]. *)
Theorem collapse_drops_zero (a : Q) :
  a < 0 -> ~ a == -1 ->
  collapse_field (VArr [VNum a; VNum 0]) = Some (VArr [VArr [VNum a]; VArr [VNum a]]).
Proof.
  intros Neg N1.
  change (collapse_field (VArr [VNum a; VNum 0])) with (collapse_numbers [a; 0]).
  unfold collapse_numbers, new_Set. cbn [fold_left].
  assert (E0 : set_add [] a = [a]) by reflexivity. rewrite E0.
  assert (E1 : set_add [a] 0 = [a; 0]).
  { unfold set_add, set_has. cbn [existsb].
    replace (Qeq_bool 0 a) with false; [reflexivity|].
    symmetry. apply not_true_iff_false. intros H. apply Qeq_bool_iff in H.
    rewrite <- H in Neg. exact (Qlt_irrefl _ Neg). }
  rewrite E1. cbn [sort_numeric fold_right sort_insert].
  replace (Qle_bool a 0) with true
    by (symmetry; apply Qle_bool_iff, Qlt_le_weak, Neg).
  cbn [seq_loop].
  replace (Qeq_bool 0 (a + 1)) with false.
  - reflexivity.
  - symmetry. apply not_true_iff_false. intros H. apply Qeq_bool_iff in H.
    apply N1. lra.
Qed.

Lemma collapse_drops_zero_witness :
  -2 < 0 /\ ~ -2 == -1 /\
  collapse_field (VArr [VNum (-2); VNum 0])
    = Some (VArr [VArr [VNum (-2)]; VArr [VNum (-2)]]).
Proof.
  assert (A : -2 < 0) by reflexivity.
  assert (B : ~ -2 == -1) by (intros H; discriminate H).
  split; [exact A|]. split; [exact B|].
  exact (collapse_drops_zero (-2) A B).
Defined.

(** On any field that holds runs of indices with at least one index,
    [collapse] stores sorted, disjoint, maximal runs of consecutive
    indices, the same indices as before, and collapsing the result again
    returns it unchanged. *)
Theorem collapse_regroups_runs (runs : list (list nat)) :
  List.concat runs <> [] ->
  exists gs,
    collapse_field (runs_field runs) = Some (runs_field gs) /\
    ranges gs /\
    (forall j, In j (List.concat gs) <-> In j (List.concat runs)) /\
    collapse_field (runs_field gs) = Some (runs_field gs).
Proof.
  intros Hne.
  destruct (collapse_field_runs runs Hne) as (zn & Z1 & Z2 & Z3 & Z4).
  destruct (group_spec zn Z2) as [R Cz].
  exists (group zn). split; [exact Z4|]. split; [exact R|].
  split; [rewrite Cz; exact Z3|].
  apply collapse_field_group; assumption.
Qed.

Lemma collapse_regroups_runs_witness :
  List.concat [[4; 5; 6]; [1; 2; 3]; [9]; [5; 6; 7]]%nat <> [] /\
  exists gs,
    collapse_field (runs_field [[4; 5; 6]; [1; 2; 3]; [9]; [5; 6; 7]]%nat)
      = Some (runs_field gs) /\
    ranges gs /\
    (forall j, In j (List.concat gs)
               <-> In j (List.concat [[4; 5; 6]; [1; 2; 3]; [9]; [5; 6; 7]]%nat)) /\
    collapse_field (runs_field gs) = Some (runs_field gs).
Proof.
  assert (N : List.concat [[4; 5; 6]; [1; 2; 3]; [9]; [5; 6; 7]]%nat <> [])
    by discriminate.
  split; [exact N|].
  exact (collapse_regroups_runs _ N).
Defined.

Lemma index_field_collapse (v : value) :
  index_field v ->
  exists w, collapse_field v = Some w /\ collapse_field w = Some w.
Proof.
  intros [(runs & -> & N) | [(x & ->) | (e & ->)]].
  - destruct (collapse_field_runs_total runs N) as (gs & _ & _ & E1 & E2).
    exists (runs_field gs). split; assumption.
  - exists (VNum x). split; reflexivity.
  - exists (VExt e). split; reflexivity.
Qed.

(** On an object whose fields hold runs of indices, numbers or collaborator
    values, [collapse] returns, and collapsing its result returns the same
    object: in this case the operation is idempotent. *)
Theorem collapse_idempotent_on_index_objects (p : report) :
  Forall (fun kv => index_field (snd kv)) p ->
  exists c, collapse p = Some c /\ collapse c = Some c.
Proof.
  induction 1 as [|[k v] p Hv _ IH].
  - exists []. split; reflexivity.
  - destruct IH as (c & E1 & E2). simpl in Hv.
    destruct (index_field_collapse v Hv) as (w & W1 & W2).
    destruct (starts_with_underscore k) eqn:U.
    + exists ((k, v) :: c). simpl. rewrite U, E1, E2. split; reflexivity.
    + exists ((k, w) :: c). simpl. rewrite U, W1, E1, W2, E2. split; reflexivity.
Qed.

Lemma collapse_idempotent_on_index_objects_witness :
  Forall (fun kv => index_field (snd kv))
         [("a"%string, runs_field [[1; 2; 3]; [4; 5; 6]]%nat);
          ("b"%string, runs_field [[10; 11]; [12; 13]]%nat);
          ("_meta"%string, VExt "metadata")] /\
  exists c,
    collapse [("a"%string, runs_field [[1; 2; 3]; [4; 5; 6]]%nat);
              ("b"%string, runs_field [[10; 11]; [12; 13]]%nat);
              ("_meta"%string, VExt "metadata")] = Some c /\
    collapse c = Some c.
Proof.
  assert (F : Forall (fun kv => index_field (snd kv))
                [("a"%string, runs_field [[1; 2; 3]; [4; 5; 6]]%nat);
                 ("b"%string, runs_field [[10; 11]; [12; 13]]%nat);
                 ("_meta"%string, VExt "metadata")]).
  { apply Forall_cons; [|apply Forall_cons; [|apply Forall_cons; [|apply Forall_nil]]];
      cbn [snd].
    - left. eexists. split; [reflexivity|]. repeat constructor; discriminate.
    - left. eexists. split; [reflexivity|]. repeat constructor; discriminate.
    - right; right. eexists; reflexivity. }
  split; [exact F|].
  exact (collapse_idempotent_on_index_objects _ F).
Defined.

(** ** Zone: labels by distance, and the inner edges *)






(** ** iqr *)

Lemma sort_insert_sorted (x : Q) (l : list Q) :
  StronglySorted Qle l -> StronglySorted Qle (sort_insert x l).
Proof.
  induction 1 as [|a l Hl IH Ha]; simpl.
  - repeat constructor.
  - destruct (Qle_bool x a) eqn:E.
    + apply Qle_bool_iff in E.
      constructor; [constructor; assumption|].
      constructor; [exact E|].
      eapply Forall_impl; [|exact Ha]. intros b Hb. eapply Qle_trans; eassumption.
    + assert (Lt : a <= x).
      { apply Qlt_le_weak, Qnot_le_lt. intros H. apply Qle_bool_iff in H. congruence. }
      constructor; [exact IH|].
      apply Forall_forall. intros b Hb. apply sort_insert_In in Hb.
      destruct Hb as [-> | Hb]; [exact Lt|].
      rewrite Forall_forall in Ha. apply Ha; exact Hb.
Qed.

Lemma sort_numeric_Qle (l : list Q) : StronglySorted Qle (sort_numeric l).
Proof.
  induction l as [|a l IH]; simpl; [constructor | apply sort_insert_sorted, IH].
Qed.

Lemma sorted_nth_le (l : list Q) :
  StronglySorted Qle l ->
  forall i j a b, (i <= j)%nat -> nth_error l i = Some a -> nth_error l j = Some b -> a <= b.
Proof.
  induction 1 as [|x l Hl IH Hx]; intros i j a b Hij Ha Hb.
  - destruct i; discriminate.
  - destruct i as [|i]; destruct j as [|j]; simpl in *.
    + injection Ha as <-. injection Hb as <-. apply Qle_refl.
    + injection Ha as <-. rewrite Forall_forall in Hx. apply Hx.
      eapply nth_error_In; exact Hb.
    + lia.
    + eapply IH; [|exact Ha | exact Hb]. lia.
Qed.

Lemma filter_sorted (f : Q -> bool) (l : list Q) :
  StronglySorted Qle l -> StronglySorted Qle (filter f l).
Proof.
  induction 1 as [|x l Hl IH Hx]; simpl; [constructor|].
  destruct (f x); [|exact IH].
  constructor; [exact IH|].
  apply Forall_forall. intros y Hy. apply filter_In in Hy.
  rewrite Forall_forall in Hx. apply Hx, Hy.
Qed.

Lemma filter_shorter (f : Q -> bool) (l : list Q) :
  (List.length (filter f l) <= List.length l)%nat.
Proof. induction l as [|a l IH]; simpl; [lia|]. destruct (f a); simpl; lia. Qed.

Lemma filter_length_lt (f : Q -> bool) (l : list Q) (x : Q) :
  In x l -> f x = false -> (List.length (filter f l) < List.length l)%nat.
Proof.
  induction l as [|a l IH]; simpl; [intros []|].
  intros [-> | Hin] Hf.
  - rewrite Hf. pose proof (filter_shorter f l). lia.
  - specialize (IH Hin Hf). destruct (f a); simpl; lia.
Qed.

(** The quartiles [iqr] reads, and what it returns from them. *)
Lemma iqr_unfold (data : list Q) (val : option Q) :
  data <> [] ->
  exists q1 q3,
    nth_error (sort_numeric data) (List.length data / 4) = Some q1 /\
    nth_error (sort_numeric data) (3 * List.length data / 4) = Some q3 /\
    q1 <= q3 /\ In q1 data /\ In q3 data /\
    iqr data val =
      Some (filter (fun value =>
                      ltb value (q1 - match val with Some v => v | None => 3 # 2 end
                                      * (q3 - q1))
                      || gtb value (q3 + match val with Some v => v | None => 3 # 2 end
                                         * (q3 - q1)))
                   (sort_numeric data)).
Proof.
  intros Hne.
  assert (N : (0 < List.length data)%nat) by (destruct data; [congruence | simpl; lia]).
  assert (B1 : (List.length data / 4 < List.length (sort_numeric data))%nat).
  { rewrite sort_numeric_length. apply Nat.Div0.div_lt_upper_bound. lia. }
  assert (B3 : (3 * List.length data / 4 < List.length (sort_numeric data))%nat).
  { rewrite sort_numeric_length. apply Nat.Div0.div_lt_upper_bound. lia. }
  destruct (nth_error (sort_numeric data) (List.length data / 4)) as [q1|] eqn:E1;
    [|apply nth_error_None in E1; lia].
  destruct (nth_error (sort_numeric data) (3 * List.length data / 4)) as [q3|] eqn:E3;
    [|apply nth_error_None in E3; lia].
  exists q1, q3. split; [reflexivity|]. split; [reflexivity|].
  split; [|split; [|split]].
  - eapply (sorted_nth_le _ (sort_numeric_Qle data)); [|exact E1 | exact E3].
    apply Nat.Div0.div_le_mono. lia.
  - apply sort_numeric_In. eapply nth_error_In; exact E1.
  - apply sort_numeric_In. eapply nth_error_In; exact E3.
  - unfold iqr.
    assert (V : validate data = Some data) by (destruct data; [congruence | reflexivity]).
    rewrite V. cbv zeta. rewrite sort_numeric_length, E1, E3. reflexivity.
Qed.

(** [iqr] returns for every non-empty sample; the values it reports are
    values of the sample, in ascending order. *)
Theorem iqr_reports_sorted_sample_values (data : list Q) (val : option Q) :
  data <> [] ->
  exists out,
    iqr data val = Some out /\
    StronglySorted Qle out /\
    (forall x, In x out -> In x data).
Proof.
  intros Hne. destruct (iqr_unfold data val Hne) as (q1 & q3 & _ & _ & _ & _ & _ & E).
  eexists. split; [exact E|]. split.
  - apply filter_sorted, sort_numeric_Qle.
  - intros x Hx. apply filter_In in Hx. apply sort_numeric_In, Hx.
Qed.

Lemma iqr_reports_sorted_sample_values_witness :
  [1; 2; 3; 4; 100] <> [] /\
  exists out,
    iqr [1; 2; 3; 4; 100] None = Some out /\
    StronglySorted Qle out /\
    (forall x, In x out -> In x [1; 2; 3; 4; 100]).
Proof.
  assert (N : [1; 2; 3; 4; 100] <> []) by discriminate.
  split; [exact N|].
  exact (iqr_reports_sorted_sample_values _ None N).
Defined.

(** With a multiplier that is not negative, [iqr] reports no value from
    the first quartile to the third, both included; so it never reports the
    whole sample. *)
Theorem iqr_spares_the_quartiles (data : list Q) (val : option Q) :
  data <> [] ->
  (forall v, val = Some v -> 0 <= v) ->
  exists q1 q3 out,
    nth_error (sort_numeric data) (List.length data / 4) = Some q1 /\
    nth_error (sort_numeric data) (3 * List.length data / 4) = Some q3 /\
    iqr data val = Some out /\
    q1 <= q3 /\
    (forall x, In x out -> x < q1 \/ q3 < x) /\
    (List.length out < List.length data)%nat.
Proof.
  intros Hne Hv.
  destruct (iqr_unfold data val Hne) as (q1 & q3 & E1 & E3 & Hq & I1 & _ & E).
  set (m := match val with Some v => v | None => 3 # 2 end) in *.
  assert (Hm : 0 <= m).
  { subst m. destruct val as [v|]; [apply Hv; reflexivity | unfold Qle; simpl; lia]. }
  assert (Hw : 0 <= m * (q3 - q1)).
  { apply Qmult_le_0_compat; [exact Hm | lra]. }
  exists q1, q3. eexists. split; [exact E1|]. split; [exact E3|].
  split; [exact E|]. split; [exact Hq|]. split.
  - intros x Hx. apply filter_In in Hx. destruct Hx as [_ Hx].
    apply orb_true_iff in Hx. destruct Hx as [Hx | Hx].
    + apply ltb_lt in Hx. left. lra.
    + apply gtb_lt in Hx. right. lra.
  - rewrite <- (sort_numeric_length data).
    assert (Hin : In q1 (sort_numeric data)) by (eapply nth_error_In; exact E1).
    apply (filter_length_lt _ _ q1 Hin).
    apply orb_false_iff. split.
    + apply ltb_false. lra.
    + apply gtb_false. lra.
Qed.

Lemma iqr_spares_the_quartiles_witness :
  [1; 2; 3; 4; 100] <> [] /\
  (forall v, Some (3 # 2) = Some v -> 0 <= v) /\
  exists out,
    iqr [1; 2; 3; 4; 100] (Some (3 # 2)) = Some out /\
    (List.length out < 5)%nat.
Proof.
  assert (N : [1; 2; 3; 4; 100] <> []) by discriminate.
  assert (P : forall v, Some (3 # 2) = Some v -> 0 <= v).
  { intros v E. injection E as <-. unfold Qle; simpl; lia. }
  split; [exact N|]. split; [exact P|].
  destruct (iqr_spares_the_quartiles _ _ N P) as (q1 & q3 & out & _ & _ & E & _ & _ & L).
  exists out. split; [exact E | exact L].
Defined.

Lemma filter_none (f : Q -> bool) (l : list Q) :
  (forall x, In x l -> f x = false) -> filter f l = [].
Proof.
  induction l as [|a l IH]; simpl; intros H; [reflexivity|].
  rewrite (H a (or_introl eq_refl)). apply IH. intros x Hx. apply H. right; exact Hx.
Qed.

(** On a sample whose values are all equal, [iqr] reports nothing,
    whatever the multiplier. *)
Theorem iqr_constant_sample (data : list Q) (val : option Q) (c : Q) :
  data <> [] ->
  Forall (fun x => x == c) data ->
  iqr data val = Some [].
Proof.
  intros Hne Hc. rewrite Forall_forall in Hc.
  destruct (iqr_unfold data val Hne) as (q1 & q3 & _ & _ & _ & I1 & I3 & E).
  rewrite E. f_equal. apply filter_none.
  intros x Hx. rewrite sort_numeric_In in Hx.
  pose proof (Hc _ Hx) as Ex. pose proof (Hc _ I1) as E1. pose proof (Hc _ I3) as E3.
  set (m := match val with Some v => v | None => 3 # 2 end).
  assert (Z : m * (q3 - q1) == 0) by (rewrite E1, E3; ring).
  apply orb_false_iff. split.
  - apply ltb_false. lra.
  - apply gtb_false. lra.
Qed.

Lemma iqr_constant_sample_witness :
  constant7 <> [] /\ Forall (fun x => x == 7) constant7 /\
  iqr constant7 (Some 2) = Some [].
Proof.
  assert (N : constant7 <> []) by discriminate.
  assert (F : Forall (fun x => x == 7) constant7) by (repeat constructor).
  split; [exact N|]. split; [exact F|].
  exact (iqr_constant_sample constant7 (Some 2) 7 N F).
Defined.

(** ** zscore and modifiedZscore *)






















(** When the median absolute deviation is zero, [modifiedZscore] reports
    every value that differs from the median, whatever the threshold: the
    division gives an infinity for them and NaN for the others. *)
Theorem modifiedZscore_zero_mad (mad median : Q) (data : list Q) (threshold : Q) :
  data <> [] ->
  mad == 0 ->
  modifiedZscore mad median data threshold
    = Some (filter (fun x => negb (Qeq_bool x median)) data).
Proof.
  intros Hne Z. unfold modifiedZscore.
  assert (V : validate data = Some data) by (destruct data; [congruence | reflexivity]).
  rewrite V. f_equal. apply filter_ext. intros x. unfold divide.
  replace (Qeq_bool mad 0) with true by (symmetry; apply Qeq_bool_iff; exact Z).
  destruct (Qeq_bool x median) eqn:E.
  - apply Qeq_bool_iff in E.
    replace (Qeq_bool ((6745 # 10000) * (x - median)) 0) with true; [reflexivity|].
    symmetry. apply Qeq_bool_iff. rewrite E. ring.
  - replace (Qeq_bool ((6745 # 10000) * (x - median)) 0) with false; [reflexivity|].
    symmetry. apply not_true_iff_false. intros H. apply Qeq_bool_iff in H.
    assert (X : x == median) by lra.
    apply Qeq_bool_iff in X. congruence.
Qed.

Lemma modifiedZscore_zero_mad_witness :
  [5; 5; 5; 6] <> [] /\ 0 == 0 /\
  modifiedZscore 0 5 [5; 5; 5; 6] (7 # 2) = Some [6].
Proof.
  assert (N : [5; 5; 5; 6] <> []) by discriminate.
  assert (Z : 0 == 0) by reflexivity.
  split; [exact N|]. split; [exact Z|].
  exact (modifiedZscore_zero_mad 0 5 [5; 5; 5; 6] (7 # 2) N Z).
Defined.

(** ** xbar and xbar2 *)

Lemma xbar_loop_S fuel _arr num d i out :
  xbar_loop (S fuel) _arr num d i out
  = if (i <? List.length _arr)%nat then
      match toFixed (divide (fold_left Qplus (slice _arr i (i + num)) 0)
                            (inject_Z (Z.of_nat num))) d with
      | None => Throws
      | Some r => xbar_loop fuel _arr num d (i + num) (out ++ [r])
      end
    else Returns out.
Proof. reflexivity. Qed.

Lemma xbar2_loop_S fuel a w d i out :
  xbar2_loop (S fuel) a w d i out
  = if (i <? List.length a)%nat then
      match toFixed (average (fold_left (add_at a) (seq i w) (Some 0)) w) d with
      | None => Throws
      | Some r => xbar2_loop fuel a w d (i + w) (out ++ [r])
      end
    else Returns out.
Proof. reflexivity. Qed.


Lemma toFixed_in_range (x : quotient) (d : nat) :
  (d <= 100)%nat ->
  toFixed x d = Some (match x with Finite q => Finite (fixed q d) | _ => x end).
Proof.
  intros H. unfold toFixed.
  destruct (100 <? d)%nat eqn:E; [apply Nat.ltb_lt in E; lia | reflexivity].
Qed.

Lemma toFixed_out_of_range (x : quotient) (d : nat) :
  (100 < d)%nat -> toFixed x d = None.
Proof.
  intros H. unfold toFixed.
  destruct (100 <? d)%nat eqn:E; [reflexivity | apply Nat.ltb_ge in E; lia].
Qed.


Lemma splice_front (l : list Q) (r : nat) : splice l 0 r = skipn r l.
Proof. reflexivity. Qed.

Lemma splice_back (l : list Q) (r : nat) :
  (r <= List.length l)%nat ->
  splice l (List.length l - r) r = firstn (List.length l - r) l.
Proof.
  intros H. unfold splice.
  replace (List.length l - r + r)%nat with (List.length l) by lia.
  rewrite skipn_all. apply app_nil_r.
Qed.

Lemma xbar_trims (arr : list Q) (obj : options) (fuel : nat) :
  (1 <= num_of obj)%nat ->
  xbar fuel arr obj
  = xbar_loop fuel (kept arr (num_of obj) (front_of obj)) (num_of obj)
              (decimalPlaces_of obj) 0 [].
Proof.
  intros Hn. unfold xbar, kept.
  replace (num_of obj =? 0)%nat with false by (symmetry; apply Nat.eqb_neq; lia).
  assert (R : (List.length arr mod num_of obj <= List.length arr)%nat)
    by (apply Nat.Div0.mod_le).
  destruct (List.length arr mod num_of obj)%nat as [|r] eqn:E.
  - rewrite Nat.sub_0_r, firstn_all. cbn [skipn].
    destruct (front_of obj); reflexivity.
  - destruct (front_of obj).
    + rewrite splice_front. reflexivity.
    + rewrite splice_back by exact R. reflexivity.
Qed.

Lemma kept_length (arr : list Q) (num : nat) (front : bool) :
  (1 <= num)%nat ->
  List.length (kept arr num front) = (List.length arr / num * num)%nat.
Proof.
  intros Hn. unfold kept.
  pose proof (Nat.div_mod_eq (List.length arr) num) as D.
  assert (R : (List.length arr mod num <= List.length arr)%nat)
    by (apply Nat.Div0.mod_le).
  destruct front.
  - rewrite length_skipn. lia.
  - rewrite length_firstn. lia.
Qed.









Lemma tl_skipn (r : nat) : forall l : list Q, tl (skipn r l) = skipn (S r) l.
Proof.
  induction r as [|r IH]; intros l.
  - destruct l; reflexivity.
  - destruct l as [|a l]; [reflexivity|].
    change (skipn (S r) (a :: l)) with (skipn r l).
    change (skipn (S (S r)) (a :: l)) with (skipn (S r) l).
    apply IH.
Qed.

Lemma iter_tl (l : list Q) (r : nat) : Nat.iter r (@tl Q) l = skipn r l.
Proof.
  induction r as [|r IH]; [reflexivity|].
  cbn [Nat.iter nat_rect].
  change (nat_rect _ l (fun _ => @tl Q) r) with (Nat.iter r (@tl Q) l).
  rewrite IH. apply tl_skipn.
Qed.

Lemma iter_removelast (l : list Q) (r : nat) :
  Nat.iter r (@removelast Q) l = firstn (List.length l - r) l.
Proof.
  induction r as [|r IH].
  - cbn [Nat.iter nat_rect]. rewrite Nat.sub_0_r, firstn_all. reflexivity.
  - cbn [Nat.iter nat_rect].
    change (nat_rect _ l (fun _ => @removelast Q) r) with (Nat.iter r (@removelast Q) l).
    rewrite IH, removelast_firstn_len, length_firstn, firstn_firstn.
    f_equal. lia.
Qed.

Lemma skipn_nth (l : list Q) (i : nat) (v : Q) :
  nth_error l i = Some v -> skipn i l = v :: skipn (S i) l.
Proof.
  revert i. induction l as [|a l IH]; intros i H.
  - destruct i; discriminate.
  - destruct i as [|i].
    + injection H as ->. reflexivity.
    + cbn [nth_error] in H. cbn [skipn]. rewrite (IH i H). reflexivity.
Qed.

Lemma index_loop_sum (a : list Q) (w : nat) :
  forall i s, (i + w <= List.length a)%nat ->
    fold_left (add_at a) (seq i w) (Some s)
    = Some (fold_left Qplus (firstn w (skipn i a)) s).
Proof.
  induction w as [|w IH]; intros i s H; [reflexivity|].
  cbn [seq fold_left].
  destruct (nth_error a i) as [v|] eqn:E.
  2:{ apply nth_error_None in E. lia. }
  unfold add_at at 2. rewrite E.
  rewrite IH by lia.
  rewrite (skipn_nth a i v E). reflexivity.
Qed.

Lemma xbar2_loop_as_xbar_loop (a : list Q) (w d m : nat) :
  (1 <= w)%nat -> List.length a = (m * w)%nat ->
  forall fuel k out,
    xbar2_loop fuel a w d (k * w) out = xbar_loop fuel a w d (k * w) out.
Proof.
  intros Hw Hl. induction fuel as [|fuel IH]; intros k out; [reflexivity|].
  rewrite xbar2_loop_S, xbar_loop_S.
  destruct (k * w <? List.length a)%nat eqn:E; [|reflexivity].
  apply Nat.ltb_lt in E.
  assert (KM : (k < m)%nat).
  { rewrite Hl in E. apply Nat.mul_lt_mono_pos_r in E; [exact E | lia]. }
  assert (B : (k * w + w <= List.length a)%nat).
  { rewrite Hl.
    replace (k * w + w)%nat with (S k * w)%nat by lia.
    apply Nat.mul_le_mono_r. lia. }
  rewrite index_loop_sum by exact B.
  unfold slice, average.
  replace (k * w + w - k * w)%nat with w by lia.
  destruct (toFixed _ d); [|reflexivity].
  replace (k * w + w)%nat with (S k * w)%nat by lia.
  apply IH.
Qed.

(** [xbar2] is [xbar] on the options with a size or a number of decimal
    places of 0 taken as absent: the two agree whenever neither is 0, and
    where [xbar] takes a 0 as given, [xbar2] falls back on windows of 5
    values and on 10 decimal places. *)
Theorem xbar2_is_xbar_on_truthy_options (fuel : nat) (arr : list Q) (o : options) :
  xbar2 fuel arr o = xbar fuel arr (truthy_options o).
Proof.
  assert (N : num_of (truthy_options o)
              = match opt_size o with Some (S n) => S n | _ => 5%nat end).
  { unfold num_of, truthy_options. cbn [opt_size].
    destruct (opt_size o) as [[|n]|]; reflexivity. }
  assert (D : decimalPlaces_of (truthy_options o)
              = match opt_d o with Some (S n) => S n | _ => 10%nat end).
  { unfold decimalPlaces_of, truthy_options. cbn [opt_d].
    destruct (opt_d o) as [[|n]|]; reflexivity. }
  assert (Hn : (1 <= num_of (truthy_options o))%nat).
  { rewrite N. destruct (opt_size o) as [[|n]|]; lia. }
  rewrite xbar_trims by exact Hn.
  unfold xbar2. rewrite <- N, <- D.
  change (match opt_front o with Some b => b | None => false end)
    with (front_of (truthy_options o)).
  set (w := num_of (truthy_options o)) in *.
  set (f := front_of (truthy_options o)).
  assert (K : Nat.iter (List.length arr mod w) (if f then @tl Q else @removelast Q) arr
              = kept arr w f).
  { unfold kept. destruct f; [apply iter_tl | apply iter_removelast]. }
  rewrite K.
  pose proof (kept_length arr w f Hn) as L.
  exact (xbar2_loop_as_xbar_loop _ w _ _ Hn L fuel 0%nat []).
Qed.

Lemma xbar_loop_stuck (arr : list Q) (d : nat) :
  arr <> [] -> (d <= 100)%nat ->
  forall fuel out, xbar_loop fuel arr 0 d 0 out = OutOfFuel.
Proof.
  intros Hne Hd. induction fuel as [|fuel IH]; intros out; [reflexivity|].
  rewrite xbar_loop_S.
  replace (0 <? List.length arr)%nat with true.
  2:{ symmetry. apply Nat.ltb_lt. destruct arr; [congruence | cbn; lia]. }
  rewrite toFixed_in_range by exact Hd.
  cbn [Nat.add]. apply IH.
Qed.

(** With a window size of 0, [xbar] never returns on an input that is not
    empty: the remainder is NaN, nothing is trimmed, and the loop index
    stays at 0 however many rounds the loop is given. *)
Theorem xbar_zero_size_never_returns (arr : list Q) (obj : options) :
  opt_size obj = Some 0%nat ->
  arr <> [] ->
  (decimalPlaces_of obj <= 100)%nat ->
  forall fuel, xbar fuel arr obj = OutOfFuel.
Proof.
  intros Hs Hne Hd fuel. unfold xbar, num_of. rewrite Hs. cbn [Nat.eqb].
  apply xbar_loop_stuck.
  - exact Hne.
  - exact Hd.
Qed.

Lemma xbar_zero_size_never_returns_witness :
  opt_size {| opt_size := Some 0%nat; opt_front := None; opt_d := None |} = Some 0%nat /\
  series7 <> [] /\
  (decimalPlaces_of {| opt_size := Some 0%nat; opt_front := None; opt_d := None |}
   <= 100)%nat /\
  xbar 1000 series7 {| opt_size := Some 0%nat; opt_front := None; opt_d := None |}
  = OutOfFuel.
Proof.
  set (obj := {| opt_size := Some 0%nat; opt_front := None; opt_d := None |}).
  assert (A : opt_size obj = Some 0%nat) by reflexivity.
  assert (B : series7 <> []) by discriminate.
  assert (C : (decimalPlaces_of obj <= 100)%nat) by (vm_compute; lia).
  split; [exact A|]. split; [exact B|]. split; [exact C|].
  exact (xbar_zero_size_never_returns series7 obj A B C 1000%nat).
Defined.

(** [xbar] ignores an incomplete window: values added after a whole number
    of windows (or, with [front], before it), fewer than the window size,
    do not change the result. *)
Theorem xbar_ignores_incomplete_window (fuel : nat) (arr extra : list Q)
    (obj : options) :
  (1 <= num_of obj)%nat ->
  (List.length arr mod num_of obj = 0)%nat ->
  (List.length extra < num_of obj)%nat ->
  xbar fuel (if front_of obj then extra ++ arr else arr ++ extra) obj
  = xbar fuel arr obj.
Proof.
  intros Hn Hm He. rewrite !xbar_trims by exact Hn. f_equal.
  unfold kept. rewrite Hm, Nat.sub_0_r, firstn_all.
  assert (M : forall l : list Q, List.length l = (List.length arr + List.length extra)%nat ->
                        (List.length l mod num_of obj = List.length extra)%nat).
  { intros l ->. rewrite Nat.Div0.add_mod, Hm by lia. cbn [Nat.add].
    rewrite Nat.Div0.mod_mod by lia. apply Nat.mod_small. exact He. }
  destruct (front_of obj).
  - cbn [skipn]. rewrite M by (rewrite length_app; lia).
    rewrite skipn_app, skipn_all, Nat.sub_diag. reflexivity.
  - rewrite M by (rewrite length_app; lia).
    rewrite length_app, Nat.add_sub, firstn_app, firstn_all, Nat.sub_diag.
    cbn [firstn]. apply app_nil_r.
Qed.

Lemma xbar_ignores_incomplete_window_witness :
  (1 <= num_of {| opt_size := Some 3%nat; opt_front := None; opt_d := None |})%nat /\
  (List.length [1; 2; 3; 4; 5; 6] mod
   num_of {| opt_size := Some 3%nat; opt_front := None; opt_d := None |} = 0)%nat /\
  (List.length [7; 8]
   < num_of {| opt_size := Some 3%nat; opt_front := None; opt_d := None |})%nat /\
  xbar 9 ([1; 2; 3; 4; 5; 6] ++ [7; 8])
       {| opt_size := Some 3%nat; opt_front := None; opt_d := None |}
  = xbar 9 [1; 2; 3; 4; 5; 6]
         {| opt_size := Some 3%nat; opt_front := None; opt_d := None |}.
Proof.
  set (obj := {| opt_size := Some 3%nat; opt_front := None; opt_d := None |}).
  assert (A : (1 <= num_of obj)%nat) by (vm_compute; lia).
  assert (B : (List.length [1; 2; 3; 4; 5; 6] mod num_of obj = 0)%nat) by reflexivity.
  assert (C : (List.length [7; 8] < num_of obj)%nat) by (vm_compute; lia).
  split; [exact A|]. split; [exact B|]. split; [exact C|].
  exact (xbar_ignores_incomplete_window 9 [1; 2; 3; 4; 5; 6] [7; 8] obj A B C).
Defined.

(** With more than 100 decimal places, [xbar] throws the RangeError of
    [toFixed] exactly when the input holds a complete window; on a shorter
    input it returns the empty array and the decimal places are never
    looked at. *)
Theorem xbar_decimal_places_out_of_range (fuel : nat) (arr : list Q)
    (obj : options) :
  (1 <= num_of obj)%nat ->
  (100 < decimalPlaces_of obj)%nat ->
  xbar (S fuel) arr obj
  = if (List.length arr <? num_of obj)%nat then Returns [] else Throws.
Proof.
  intros Hn Hd. rewrite xbar_trims by exact Hn. rewrite xbar_loop_S.
  pose proof (kept_length arr (num_of obj) (front_of obj) Hn) as L.
  rewrite L. rewrite toFixed_out_of_range by exact Hd.
  destruct (List.length arr <? num_of obj)%nat eqn:E.
  - apply Nat.ltb_lt in E. rewrite Nat.div_small by exact E. reflexivity.
  - apply Nat.ltb_ge in E.
    replace (0 <? List.length arr / num_of obj * num_of obj)%nat with true;
      [reflexivity|].
    symmetry. apply Nat.ltb_lt.
    assert (1 <= List.length arr / num_of obj)%nat
      by (apply Nat.div_le_lower_bound; lia).
    nia.
Qed.

Lemma xbar_decimal_places_out_of_range_witness :
  (1 <= num_of {| opt_size := None; opt_front := None; opt_d := Some 101%nat |})%nat /\
  (100 < decimalPlaces_of {| opt_size := None; opt_front := None; opt_d := Some 101%nat |})%nat /\
  xbar 1 series7 {| opt_size := None; opt_front := None; opt_d := Some 101%nat |} = Throws /\
  xbar 1 [1; 2; 3; 4] {| opt_size := None; opt_front := None; opt_d := Some 101%nat |}
  = Returns [].
Proof.
  set (obj := {| opt_size := None; opt_front := None; opt_d := Some 101%nat |}).
  assert (A : (1 <= num_of obj)%nat) by (vm_compute; lia).
  assert (B : (100 < decimalPlaces_of obj)%nat) by (vm_compute; lia).
  split; [exact A|]. split; [exact B|]. split.
  - exact (xbar_decimal_places_out_of_range 0 series7 obj A B).
  - exact (xbar_decimal_places_out_of_range 0 [1; 2; 3; 4] obj A B).
Defined.

(** ** sequenceAnalysis and partialMatches *)

Lemma cluster_eqb_eq (a b : cluster) : cluster_eqb a b = true <-> a = b.
Proof.
  unfold cluster_eqb. destruct (list_eq_dec Z.eq_dec a b); split; congruence.
Qed.

Lemma cluster_eqb_refl (a : cluster) : cluster_eqb a a = true.
Proof. apply cluster_eqb_eq. reflexivity. Qed.

Lemma cluster_eqb_neq (a b : cluster) : cluster_eqb a b = false <-> a <> b.
Proof.
  unfold cluster_eqb. destruct (list_eq_dec Z.eq_dec a b); split; congruence.
Qed.

Lemma lookup_store_same {V : Type} (k : cluster) (v : V) (o : object V) :
  lookup k (store k v o) = Some v.
Proof.
  induction o as [|[k' v'] o IH]; cbn [store lookup].
  - rewrite cluster_eqb_refl. reflexivity.
  - destruct (cluster_eqb k k') eqn:E; cbn [lookup].
    + rewrite cluster_eqb_refl. reflexivity.
    + rewrite E. exact IH.
Qed.

Lemma lookup_store_other {V : Type} (k k' : cluster) (v : V) (o : object V) :
  k <> k' -> lookup k (store k' v o) = lookup k o.
Proof.
  intros N. induction o as [|[k2 v2] o IH]; cbn [store lookup].
  - replace (cluster_eqb k k') with false by (symmetry; apply cluster_eqb_neq; exact N).
    reflexivity.
  - destruct (cluster_eqb k' k2) eqn:E; cbn [lookup].
    + apply cluster_eqb_eq in E. subst k2.
      replace (cluster_eqb k k') with false by (symmetry; apply cluster_eqb_neq; exact N).
      reflexivity.
    + destruct (cluster_eqb k k2); [reflexivity | exact IH].
Qed.

Lemma lookup_none {V : Type} (k : cluster) (o : object V) :
  lookup k o = None <-> ~ In k (map fst o).
Proof.
  induction o as [|[k' v] o IH]; cbn [lookup map fst In].
  - tauto.
  - destruct (cluster_eqb k k') eqn:E.
    + apply cluster_eqb_eq in E. split; [discriminate | intros H; exfalso; apply H; left; congruence].
    + apply cluster_eqb_neq in E. rewrite IH. split.
      * intros H [C | C]; [congruence | tauto].
      * intros H C. apply H. right. exact C.
Qed.

Lemma lookup_in {V : Type} (k : cluster) (v : V) (o : object V) :
  lookup k o = Some v -> In (k, v) o.
Proof.
  induction o as [|[k' v'] o IH]; cbn [lookup]; [discriminate|].
  destruct (cluster_eqb k k') eqn:E.
  - apply cluster_eqb_eq in E. intros H. injection H as ->. left. congruence.
  - intros H. right. apply IH. exact H.
Qed.

Lemma store_absent {V : Type} (k : cluster) (v : V) (o : object V) :
  ~ In k (map fst o) -> store k v o = o ++ [(k, v)].
Proof.
  induction o as [|[k' v'] o IH]; intros H; cbn [store app]; [reflexivity|].
  cbn [map fst In] in H.
  replace (cluster_eqb k k') with false.
  2:{ symmetry. apply cluster_eqb_neq. intros ->. apply H. left. reflexivity. }
  rewrite IH by tauto. reflexivity.
Qed.

Lemma store_present {V : Type} (k : cluster) (v : V) (o : object V) :
  In k (map fst o) -> map fst (store k v o) = map fst o.
Proof.
  induction o as [|[k' v'] o IH]; intros H; [destruct H|].
  cbn [store]. destruct (cluster_eqb k k') eqn:E.
  - apply cluster_eqb_eq in E. subst. reflexivity.
  - cbn [map fst]. f_equal. apply IH. destruct H as [H | H]; [|exact H].
    apply cluster_eqb_neq in E. cbn [fst] in H. congruence.
Qed.

Lemma store_nodup {V : Type} (k : cluster) (v : V) (o : object V) :
  NoDup (map fst o) -> NoDup (map fst (store k v o)).
Proof.
  intros H. destruct (in_dec (list_eq_dec Z.eq_dec) k (map fst o)) as [I | I].
  - rewrite store_present by exact I. exact H.
  - rewrite store_absent by exact I. rewrite map_app. cbn [map fst].
    apply NoDup_app; [exact H | repeat constructor; intros [] | ].
    intros x Hx [<- | []]. exact (I Hx).
Qed.

(** *** the counts *)

Lemma count_cluster_nodup (ws : list cluster) :
  forall o, NoDup (map fst o) -> NoDup (map fst (fold_left count_cluster ws o)).
Proof.
  induction ws as [|w ws IH]; intros o H; [exact H|].
  cbn [fold_left]. apply IH. unfold count_cluster.
  destruct (lookup w o); apply store_nodup; exact H.
Qed.

Lemma count_of_count_cluster (o : object nat) (w c : cluster) :
  count_of (count_cluster o w) c
  = if list_eq_dec Z.eq_dec w c then S (count_of o c) else count_of o c.
Proof.
  unfold count_cluster, count_of.
  destruct (list_eq_dec Z.eq_dec w c) as [-> | N].
  - destruct (lookup c o); rewrite lookup_store_same; reflexivity.
  - destruct (lookup w o); rewrite lookup_store_other by congruence; reflexivity.
Qed.

Lemma count_cluster_count (ws : list cluster) (c : cluster) :
  forall o, count_of (fold_left count_cluster ws o) c
            = (occurrences ws c + count_of o c)%nat.
Proof.
  unfold occurrences.
  induction ws as [|w ws IH]; intros o; [reflexivity|].
  cbn [fold_left]. rewrite IH, count_of_count_cluster. cbn [count_occ].
  destruct (list_eq_dec Z.eq_dec w c); lia.
Qed.

Lemma count_cluster_positive (ws : list cluster) (c : cluster) :
  forall o, (forall k n, lookup k o = Some n -> (1 <= n)%nat) ->
            forall n, lookup c (fold_left count_cluster ws o) = Some n -> (1 <= n)%nat.
Proof.
  induction ws as [|w ws IH]; intros o H n; [apply H|].
  cbn [fold_left]. apply IH. intros k m. unfold count_cluster.
  destruct (list_eq_dec Z.eq_dec k w) as [-> | N].
  - destruct (lookup w o); rewrite lookup_store_same; intros E; injection E as <-; lia.
  - destruct (lookup w o); rewrite lookup_store_other by exact N; apply H.
Qed.

Lemma counted (ws : list cluster) (c : cluster) :
  lookup c (fold_left count_cluster ws [])
  = match occurrences ws c with O => None | S n => Some (S n) end.
Proof.
  pose proof (count_cluster_count ws c []) as C.
  assert (P0 : forall k n, lookup k (@nil (cluster * nat)) = Some n -> (1 <= n)%nat)
    by (intros k n H; discriminate H).
  pose proof (count_cluster_positive ws c [] P0) as P.
  unfold count_of in C. cbn [lookup] in C.
  destruct (lookup c (fold_left count_cluster ws [])) as [n|] eqn:E.
  - specialize (P n eq_refl). rewrite Nat.add_0_r in C. rewrite <- C.
    destruct n; [lia | reflexivity].
  - rewrite Nat.add_0_r in C. rewrite <- C. reflexivity.
Qed.

Lemma lookup_filter {V : Type} (f : V -> bool) (c : cluster) (o : object V) :
  NoDup (map fst o) ->
  lookup c (filter (fun kv => f (snd kv)) o)
  = match lookup c o with
    | Some v => if f v then Some v else None
    | None => None
    end.
Proof.
  induction o as [|[k v] o IH]; intros H; [reflexivity|].
  cbn [map fst] in H. inversion H as [|? ? Hk Ho]; subst.
  cbn [filter snd lookup].
  destruct (cluster_eqb c k) eqn:E.
  - apply cluster_eqb_eq in E. subst k.
    destruct (f v); cbn [lookup].
    + rewrite cluster_eqb_refl. reflexivity.
    + rewrite IH by exact Ho.
      apply lookup_none in Hk. rewrite Hk. reflexivity.
  - destruct (f v); cbn [lookup]; [rewrite E|]; apply IH; exact Ho.
Qed.

Lemma filter_keys_nodup {V : Type} (f : cluster * V -> bool) (o : object V) :
  NoDup (map fst o) -> NoDup (map fst (filter f o)).
Proof.
  induction o as [|[k v] o IH]; intros H; [exact H|].
  cbn [map fst] in H. inversion H as [|? ? Hk Ho]; subst.
  cbn [filter]. destruct (f (k, v)); [|apply IH; exact Ho].
  cbn [map fst]. constructor; [|apply IH; exact Ho].
  intros C. apply Hk. apply in_map_iff in C. destruct C as ([k' v'] & <- & I).
  apply filter_In in I. apply in_map_iff. exists (k', v'). tauto.
Qed.

Lemma insert_index_perm (k : cluster) (l : list cluster) :
  Permutation (insert_index k l) (k :: l).
Proof.
  induction l as [|k' l IH]; cbn [insert_index]; [reflexivity|].
  destruct (index_value k <=? index_value k')%Z; [reflexivity|].
  rewrite IH. apply perm_swap.
Qed.

Lemma sort_index_perm (l : list cluster) :
  Permutation (fold_right insert_index [] l) l.
Proof.
  induction l as [|k l IH]; cbn [fold_right]; [reflexivity|].
  rewrite insert_index_perm, IH. reflexivity.
Qed.

Lemma partition_perm (f : cluster -> bool) (l : list cluster) :
  Permutation (filter f l ++ filter (fun k => negb (f k)) l) l.
Proof.
  induction l as [|k l IH]; cbn [filter]; [reflexivity|].
  destruct (f k); cbn [negb app].
  - rewrite IH. reflexivity.
  - rewrite <- Permutation_middle, IH. reflexivity.
Qed.

Lemma keys_perm {V : Type} (o : object V) : Permutation (keys o) (map fst o).
Proof.
  unfold keys. rewrite sort_index_perm. apply partition_perm.
Qed.

Lemma insert_by_count_perm (s : object nat) (a : cluster) (l : list cluster) :
  Permutation (insert_by_count s a l) (a :: l).
Proof.
  induction l as [|b l IH]; cbn [insert_by_count]; [reflexivity|].
  destruct (count_of s a <? count_of s b)%nat; [|reflexivity].
  rewrite IH. apply perm_swap.
Qed.

Lemma sort_by_count_perm (s : object nat) (l : list cluster) :
  Permutation (sort_by_count s l) l.
Proof.
  unfold sort_by_count.
  induction l as [|k l IH]; cbn [fold_right]; [reflexivity|].
  rewrite insert_by_count_perm, IH. reflexivity.
Qed.

Lemma insert_by_count_sorted (s : object nat) (a : cluster) (l : list cluster) :
  Sorted (by_count s) l -> Sorted (by_count s) (insert_by_count s a l).
Proof.
  induction l as [|b l IH]; intros H; cbn [insert_by_count].
  - repeat constructor.
  - destruct (count_of s a <? count_of s b)%nat eqn:E.
    + inversion H as [|? ? Hl Hb]; subst. constructor; [apply IH; exact Hl|].
      apply Nat.ltb_lt in E.
      destruct l as [|c l]; cbn [insert_by_count].
      * constructor. unfold by_count. lia.
      * destruct (count_of s a <? count_of s c)%nat.
        -- inversion Hb; subst. constructor. assumption.
        -- constructor. unfold by_count. lia.
    + apply Nat.ltb_ge in E. constructor; [exact H|]. constructor. exact E.
Qed.

Lemma sort_by_count_sorted (s : object nat) (l : list cluster) :
  StronglySorted (by_count s) (sort_by_count s l).
Proof.
  apply Sorted_StronglySorted.
  - intros a b c. unfold by_count. lia.
  - unfold sort_by_count. induction l as [|k l IH]; cbn [fold_right].
    + constructor.
    + apply insert_by_count_sorted. exact IH.
Qed.

Lemma build_object (f : cluster -> nat) (l : list cluster) :
  forall acc, NoDup (map fst acc ++ l) ->
    fold_left (fun p k => store k (f k) p) l acc
    = acc ++ map (fun k => (k, f k)) l.
Proof.
  induction l as [|k l IH]; intros acc H; cbn [fold_left map].
  - rewrite app_nil_r. reflexivity.
  - assert (A : ~ In k (map fst acc)).
    { intros C. apply NoDup_remove_2 in H. apply H. apply in_or_app. left. exact C. }
    rewrite store_absent by exact A.
    rewrite IH.
    + rewrite <- app_assoc. reflexivity.
    + rewrite map_app. cbn [map fst]. rewrite <- app_assoc. exact H.
Qed.

Lemma lookup_built (f : cluster -> nat) (l : list cluster) (c : cluster) :
  lookup c (map (fun k => (k, f k)) l)
  = if in_dec (list_eq_dec Z.eq_dec) c l then Some (f c) else None.
Proof.
  induction l as [|k l IH]; [reflexivity|].
  cbn [map lookup]. destruct (cluster_eqb c k) eqn:E.
  - apply cluster_eqb_eq in E. subst k.
    destruct (in_dec (list_eq_dec Z.eq_dec) c (c :: l)) as [_ | N]; [reflexivity|].
    exfalso. apply N. left. reflexivity.
  - apply cluster_eqb_neq in E. rewrite IH.
    destruct (in_dec (list_eq_dec Z.eq_dec) c l) as [I | N];
      destruct (in_dec (list_eq_dec Z.eq_dec) c (k :: l)) as [I' | N'];
      try reflexivity.
    + exfalso. apply N'. right. exact I.
    + exfalso. destruct I' as [-> | I']; [congruence | exact (N I')].
Qed.

Lemma newArray_length (arr : list Z) (clusterSize : nat) (c : cluster) :
  In c (newArray_of arr clusterSize) -> List.length c = clusterSize.
Proof.
  unfold newArray_of. intros H. apply in_map_iff in H.
  destruct H as (i & <- & Hi). apply in_seq in Hi.
  rewrite length_firstn, length_skipn. lia.
Qed.

Lemma keys_creation_order {V : Type} (o : object V) :
  (forall k, In k (map fst o) -> is_index k = false) ->
  keys o = map fst o.
Proof.
  intros H. unfold keys.
  assert (A : filter is_index (map fst o) = []).
  { induction (map fst o) as [|k l IH]; [reflexivity|].
    cbn [filter]. rewrite (H k (or_introl eq_refl)).
    apply IH. intros k' Hk'. apply H. right. exact Hk'. }
  rewrite A. cbn [fold_right app].
  apply forallb_filter_id. apply forallb_forall. intros k Hk.
  rewrite (H k Hk). reflexivity.
Qed.

Lemma duplicates_nodup (ws : list cluster) : NoDup (map fst (duplicates_of ws)).
Proof.
  unfold duplicates_of. apply filter_keys_nodup.
  apply count_cluster_nodup. constructor.
Qed.

Lemma duplicates_lookup (ws : list cluster) (c : cluster) :
  lookup c (duplicates_of ws)
  = if (2 <=? occurrences ws c)%nat then Some (occurrences ws c) else None.
Proof.
  unfold duplicates_of.
  rewrite (lookup_filter (fun n => negb (n =? 1)%nat))
    by (apply count_cluster_nodup; constructor).
  rewrite counted.
  destruct (occurrences ws c) as [|[|n]]; reflexivity.
Qed.

Lemma sorted_keys_nodup (ws : list cluster) :
  NoDup (sort_by_count (duplicates_of ws) (keys (duplicates_of ws))).
Proof.
  eapply Permutation_NoDup; [| apply duplicates_nodup].
  symmetry. rewrite sort_by_count_perm. apply keys_perm.
Qed.

Lemma sorted_keys_in (ws : list cluster) (c : cluster) :
  In c (sort_by_count (duplicates_of ws) (keys (duplicates_of ws)))
  <-> (2 <= occurrences ws c)%nat.
Proof.
  assert (P : Permutation (sort_by_count (duplicates_of ws) (keys (duplicates_of ws)))
                          (map fst (duplicates_of ws)))
    by (rewrite sort_by_count_perm; apply keys_perm).
  split.
  - intros H. apply (Permutation_in _ P) in H.
    destruct (lookup c (duplicates_of ws)) as [n|] eqn:E.
    + rewrite duplicates_lookup in E.
      destruct (2 <=? occurrences ws c)%nat eqn:L; [|discriminate].
      apply Nat.leb_le in L. exact L.
    + apply lookup_none in E. contradiction.
  - intros H. apply (Permutation_in _ (Permutation_sym P)).
    destruct (in_dec (list_eq_dec Z.eq_dec) c (map fst (duplicates_of ws))) as [I | N];
      [exact I|].
    apply lookup_none in N. rewrite duplicates_lookup in N.
    replace (2 <=? occurrences ws c)%nat with true in N
      by (symmetry; apply Nat.leb_le; exact H).
    discriminate.
Qed.

Lemma sequences_built (arr : list Z) (clusterSize : option nat) (threshold : option Q) :
  sequences (sequenceAnalysis arr clusterSize threshold)
  = map (fun k => (k, count_of (duplicates_of (newArray_of arr (clusterSize_of clusterSize))) k))
        (sort_by_count (duplicates_of (newArray_of arr (clusterSize_of clusterSize)))
                       (keys (duplicates_of (newArray_of arr (clusterSize_of clusterSize))))).
Proof.
  unfold sequenceAnalysis. cbn [sequences].
  rewrite build_object; [reflexivity|].
  cbn [map app]. apply sorted_keys_nodup.
Qed.

Lemma map_fst_built (f : cluster -> nat) (l : list cluster) :
  map fst (map (fun k => (k, f k)) l) = l.
Proof.
  induction l as [|k l IH]; [reflexivity|]. cbn [map fst]. rewrite IH. reflexivity.
Qed.

(** The object [sequenceAnalysis] returns under [sequences] holds exactly
    the clusters that occur at least twice among the windows, each once and
    with the number of its occurrences, and [strictDuplicates] is the
    number of these clusters. *)
Theorem sequenceAnalysis_counts_duplicates (arr : list Z) (clusterSize : option nat)
    (threshold : option Q) :
  let r := sequenceAnalysis arr clusterSize threshold in
  let newArray := newArray_of arr (clusterSize_of clusterSize) in
  (forall c n, lookup c (sequences r) = Some n
               <-> n = occurrences newArray c /\ (2 <= n)%nat) /\
  NoDup (map fst (sequences r)) /\
  strictDuplicates r = List.length (sequences r).
Proof.
  intros r newArray.
  assert (S : sequences r
              = map (fun k => (k, count_of (duplicates_of newArray) k))
                    (sort_by_count (duplicates_of newArray) (keys (duplicates_of newArray))))
    by apply sequences_built.
  split; [|split].
  - intros c n. rewrite S, lookup_built.
    destruct (in_dec (list_eq_dec Z.eq_dec) c _) as [I | N].
    + apply sorted_keys_in in I. unfold count_of. rewrite duplicates_lookup.
      replace (2 <=? occurrences newArray c)%nat with true
        by (symmetry; apply Nat.leb_le; exact I).
      split.
      * intros E. injection E as <-. split; [reflexivity | exact I].
      * intros [-> _]. reflexivity.
    + split; [discriminate|]. intros [-> L]. exfalso. apply N.
      apply sorted_keys_in. exact L.
  - rewrite S, map_fst_built. apply sorted_keys_nodup.
  - rewrite S, length_map.
    unfold r, sequenceAnalysis. cbn [strictDuplicates]. fold newArray.
    symmetry. apply Permutation_length. apply sort_by_count_perm.
Qed.

Lemma sorted_built (s : object nat) (l : list cluster) :
  StronglySorted (by_count s) l ->
  StronglySorted (fun a b : cluster * nat => (snd b <= snd a)%nat)
                 (map (fun k => (k, count_of s k)) l).
Proof.
  induction 1 as [|a l Hl IH Ha]; cbn [map]; constructor; [exact IH|].
  apply Forall_map. eapply Forall_impl; [|exact Ha].
  intros b Hb. exact Hb.
Qed.

(** The properties of the returned [sequences] are created in descending
    order of their counts; and for a cluster size other than 1 no key is an
    array index, so that this is also the order in which the object
    enumerates them. *)
Theorem sequenceAnalysis_descending_counts (arr : list Z) (clusterSize : option nat)
    (threshold : option Q) :
  clusterSize_of clusterSize <> 1%nat ->
  let r := sequenceAnalysis arr clusterSize threshold in
  StronglySorted (fun a b : cluster * nat => (snd b <= snd a)%nat) (sequences r) /\
  keys (sequences r) = map fst (sequences r).
Proof.
  intros Hc r.
  assert (S : sequences r = _) by apply sequences_built.
  split.
  - rewrite S. apply sorted_built. apply sort_by_count_sorted.
  - apply keys_creation_order. intros k Hk.
    rewrite S, map_fst_built in Hk. apply sorted_keys_in in Hk.
    assert (I : In k (newArray_of arr (clusterSize_of clusterSize))).
    { apply (count_occ_In (list_eq_dec Z.eq_dec)). unfold occurrences in Hk. lia. }
    apply newArray_length in I.
    unfold is_index, array_index.
    destruct k as [|z [|z' k]]; try reflexivity.
    cbn [List.length] in I. congruence.
Qed.

Lemma sequenceAnalysis_descending_counts_witness :
  clusterSize_of (Some 2%nat) <> 1%nat /\
  StronglySorted (fun a b : cluster * nat => (snd b <= snd a)%nat)
                 (sequences (sequenceAnalysis [3; 3; 1; 2; 1; 2; 1; 2; 3; 3]%Z (Some 2%nat) None)) /\
  sequences (sequenceAnalysis [3; 3; 1; 2; 1; 2; 1; 2; 3; 3]%Z (Some 2%nat) None)
  = [([1; 2]%Z, 3%nat); ([3; 3]%Z, 2%nat); ([2; 1]%Z, 2%nat)].
Proof.
  assert (A : clusterSize_of (Some 2%nat) <> 1%nat) by discriminate.
  split; [exact A|]. split.
  - exact (proj1 (sequenceAnalysis_descending_counts
                    [3; 3; 1; 2; 1; 2; 1; 2; 3; 3]%Z (Some 2%nat) None A)).
  - vm_compute. reflexivity.
Defined.

(** *** partialMatches *)

Lemma record_match_lookup2 (P : object (object (nat * Q))) (c1 c2 a b : cluster) (s : Q) :
  lookup2 a b (record_match P c1 c2 s)
  = if cluster_eqb a c1 && cluster_eqb b c2 then bump s (lookup2 a b P)
    else lookup2 a b P.
Proof.
  unfold record_match, lookup2.
  destruct (cluster_eqb a c1) eqn:A.
  - apply cluster_eqb_eq in A. subst a. cbn [andb].
    destruct (lookup c1 P) as [o|] eqn:E.
    + rewrite E, lookup_store_same.
      destruct (cluster_eqb b c2) eqn:B.
      * apply cluster_eqb_eq in B. subst b.
        destruct (lookup c2 o) as [[n c]|]; rewrite lookup_store_same; reflexivity.
      * apply cluster_eqb_neq in B.
        destruct (lookup c2 o) as [[n c]|]; rewrite lookup_store_other by exact B;
          reflexivity.
    + rewrite !lookup_store_same. cbn [lookup store].
      destruct (cluster_eqb b c2); reflexivity.
  - apply cluster_eqb_neq in A. cbn [andb].
    rewrite lookup_store_other by exact A.
    destruct (lookup c1 P) as [o|] eqn:E; [reflexivity|].
    rewrite lookup_store_other by exact A. reflexivity.
Qed.

Lemma compare_lookup2 (cl : list cluster) (t : Q) (i j : nat) (c1 a b : cluster)
    (P : object (object (nat * Q))) :
  nth_error cl i = Some c1 ->
  lookup2 a b (compare_clusters cl t i c1 P j)
  = if adds_to cl t a b i j then bump (similarity a b) (lookup2 a b P)
    else lookup2 a b P.
Proof.
  intros Hi. unfold compare_clusters, adds_to, cluster_at. rewrite Hi.
  destruct (i =? j)%nat; [reflexivity|]. cbn [negb andb].
  destruct (nth_error cl j) as [c2|]; [|rewrite andb_false_r; reflexivity].
  destruct (cluster_eqb c1 a) eqn:A; [|cbn [andb];
    destruct (cluster_eqb c1 c2); [reflexivity|];
    destruct (geb (similarity c1 c2) t); [|reflexivity];
    rewrite record_match_lookup2;
    replace (cluster_eqb a c1) with false; [reflexivity|];
    symmetry; apply cluster_eqb_neq; apply cluster_eqb_neq in A; congruence].
  apply cluster_eqb_eq in A. subst c1. cbn [andb].
  destruct (cluster_eqb c2 b) eqn:B.
  - apply cluster_eqb_eq in B. subst c2. cbn [andb].
    destruct (cluster_eqb a b); [reflexivity|]. cbn [negb andb].
    destruct (geb (similarity a b) t); [|reflexivity].
    rewrite record_match_lookup2, !cluster_eqb_refl. reflexivity.
  - cbn [andb].
    destruct (cluster_eqb a c2); [reflexivity|].
    destruct (geb (similarity a c2) t); [|reflexivity].
    rewrite record_match_lookup2, cluster_eqb_refl. cbn [andb].
    replace (cluster_eqb b c2) with false; [reflexivity|].
    symmetry. apply cluster_eqb_neq. apply cluster_eqb_neq in B. congruence.
Qed.

Lemma inner_loop_lookup2 (cl : list cluster) (t : Q) (i : nat) (c1 a b : cluster) :
  nth_error cl i = Some c1 ->
  forall js P,
    lookup2 a b (fold_left (compare_clusters cl t i c1) js P)
    = Nat.iter (List.length (filter (adds_to cl t a b i) js))
               (bump (similarity a b)) (lookup2 a b P).
Proof.
  intros Hi. induction js as [|j js IH]; intros P; [reflexivity|].
  cbn [fold_left filter]. rewrite IH, compare_lookup2 by exact Hi.
  destruct (adds_to cl t a b i j); [|reflexivity].
  cbn [List.length]. rewrite Nat.iter_succ_r. reflexivity.
Qed.

Lemma no_adds (cl : list cluster) (t : Q) (i : nat) (a b : cluster) (js : list nat) :
  nth_error cl i = None -> filter (adds_to cl t a b i) js = [].
Proof.
  intros Hi. induction js as [|j js IH]; [reflexivity|].
  cbn [filter]. unfold adds_to at 1, cluster_at. rewrite Hi.
  rewrite andb_false_r. cbn [andb]. exact IH.
Qed.

Lemma list_sum_cons (a : nat) (l : list nat) :
  list_sum (a :: l) = (a + list_sum l)%nat.
Proof. reflexivity. Qed.

Lemma outer_loop_lookup2 (cl : list cluster) (t : Q) (a b : cluster) (js : list nat) :
  forall rounds P,
    lookup2 a b
      (fold_left (fun partials i =>
                    match nth_error cl i with
                    | None => partials
                    | Some cluster1 => fold_left (compare_clusters cl t i cluster1) js partials
                    end) rounds P)
    = Nat.iter (list_sum (map (fun i => List.length (filter (adds_to cl t a b i) js)) rounds))
               (bump (similarity a b)) (lookup2 a b P).
Proof.
  induction rounds as [|i rounds IH]; intros P; [reflexivity|].
  cbn [fold_left map]. rewrite IH, list_sum_cons.
  rewrite Nat.add_comm, Nat.iter_add. f_equal.
  destruct (nth_error cl i) as [c1|] eqn:Hi.
  - apply inner_loop_lookup2. exact Hi.
  - rewrite no_adds by exact Hi. reflexivity.
Qed.

Lemma bump_iter (s : Q) (n : nat) :
  Nat.iter n (bump s) None
  = match n with O => None | S _ => Some (n, fixed s 3) end.
Proof.
  induction n as [|n IH]; [reflexivity|].
  cbn [Nat.iter nat_rect]. change (nat_rect _ None (fun _ => bump s) n)
    with (Nat.iter n (bump s) None).
  rewrite IH. destruct n; reflexivity.
Qed.

Lemma filter_cluster_at_shift (c : cluster) (cl : list cluster) (b : cluster)
    (l : list nat) :
  filter (fun j => cluster_at (c :: cl) j b) (map S l)
  = map S (filter (fun j => cluster_at cl j b) l).
Proof.
  induction l as [|j l IHl]; [reflexivity|].
  cbn [map filter]. change (cluster_at (c :: cl) (S j) b) with (cluster_at cl j b).
  destruct (cluster_at cl j b); cbn [map]; rewrite IHl; reflexivity.
Qed.

Lemma count_cluster_at (cl : list cluster) (b : cluster) :
  List.length (filter (fun j => cluster_at cl j b) (seq 0 (List.length cl)))
  = occurrences cl b.
Proof.
  unfold occurrences. induction cl as [|c cl IH]; [reflexivity|].
  cbn [List.length seq filter]. rewrite <- seq_shift.
  rewrite filter_cluster_at_shift. cbn [count_occ].
  unfold cluster_at at 1. cbn [nth_error]. unfold cluster_eqb.
  destruct (list_eq_dec Z.eq_dec c b); cbn [List.length]; rewrite length_map, IH;
    reflexivity.
Qed.

Lemma sum_of_selected (p : nat -> bool) (K : nat) (l : list nat) :
  list_sum (map (fun i => if p i then K else 0%nat) l)
  = (List.length (filter p l) * K)%nat.
Proof.
  induction l as [|i l IH]; [reflexivity|].
  cbn [map filter]. rewrite list_sum_cons, IH.
  destruct (p i); cbn [List.length]; lia.
Qed.

Lemma filter_same (A : Type) (f g : A -> bool) (l : list A) :
  (forall x, f x = g x) -> filter f l = filter g l.
Proof.
  intros H. induction l as [|x l IH]; [reflexivity|].
  cbn [filter]. rewrite H, IH. reflexivity.
Qed.

Lemma hit_total (cl : list cluster) (t : Q) (a b : cluster) :
  list_sum (map (fun i => List.length (filter (adds_to cl t a b i) (seq 0 (List.length cl))))
                (seq 0 (List.length cl)))
  = if negb (cluster_eqb a b) && geb (similarity a b) t
    then (occurrences cl a * occurrences cl b)%nat else 0%nat.
Proof.
  destruct (negb (cluster_eqb a b) && geb (similarity a b) t) eqn:C.
  - apply andb_true_iff in C. destruct C as [C1 C2].
    apply negb_true_iff in C1.
    assert (H : forall i j, adds_to cl t a b i j = cluster_at cl i a && cluster_at cl j b).
    { intros i j. unfold adds_to. rewrite C1, C2. cbn [negb]. rewrite !andb_true_r.
      destruct (i =? j)%nat eqn:E; [|reflexivity].
      apply Nat.eqb_eq in E. subst j. cbn [negb andb].
      unfold cluster_at. destruct (nth_error cl i) as [c|]; [|reflexivity].
      destruct (cluster_eqb c a) eqn:A; [|reflexivity].
      destruct (cluster_eqb c b) eqn:B; [|reflexivity].
      apply cluster_eqb_eq in A, B. apply cluster_eqb_neq in C1. congruence. }
    rewrite <- (count_cluster_at cl a), <- (count_cluster_at cl b).
    rewrite <- sum_of_selected. f_equal. apply map_ext. intros i.
    rewrite (filter_same _ _ (fun j => cluster_at cl i a && cluster_at cl j b))
      by (intros j; apply H).
    destruct (cluster_at cl i a).
    + cbn [andb]. reflexivity.
    + cbn [andb]. clear. induction (seq 0 (List.length cl)); [reflexivity | assumption].
  - assert (H : forall i j, adds_to cl t a b i j = false).
    { intros i j. unfold adds_to.
      rewrite <- !andb_assoc. rewrite C. rewrite !andb_false_r. reflexivity. }
    induction (seq 0 (List.length cl)) as [|i l IH] at 2; [reflexivity|].
    cbn [map]. rewrite list_sum_cons, IH.
    rewrite (filter_same _ _ (fun _ => false)) by (intros j; apply H).
    clear. induction (seq 0 (List.length cl)); [reflexivity | assumption].
Qed.

Lemma partialMatches_lookup2 (cl : list cluster) (th : option Q) (a b : cluster) :
  lookup2 a b (partialMatches cl th)
  = if negb (cluster_eqb a b) && geb (similarity a b) (threshold_of th)
    then match (occurrences cl a * occurrences cl b)%nat with
         | O => None
         | S n => Some (S n, fixed (similarity a b) 3)
         end
    else None.
Proof.
  unfold partialMatches. rewrite outer_loop_lookup2, hit_total.
  change (lookup2 a b []) with (@None (nat * Q)).
  rewrite bump_iter.
  destruct (negb (cluster_eqb a b) && geb (similarity a b) (threshold_of th));
    [|reflexivity].
  destruct (occurrences cl a * occurrences cl b)%nat; reflexivity.
Qed.

Lemma same_at_sym (a b : cluster) (k : nat) : same_at a b k = same_at b a k.
Proof.
  unfold same_at. destruct (nth_error a k), (nth_error b k); try reflexivity.
  apply Z.eqb_sym.
Qed.

Lemma sameCount_filter (f : nat -> bool) (l : list nat) :
  forall c0, fold_left (fun sameCount k => if f k then S sameCount else sameCount) l c0
             = (c0 + List.length (filter f l))%nat.
Proof.
  induction l as [|k l IH]; intros c0; cbn [fold_left filter].
  - cbn [List.length]. lia.
  - rewrite IH. destruct (f k); cbn [List.length]; lia.
Qed.

Lemma similarity_sym (a b : cluster) : similarity a b = similarity b a.
Proof.
  unfold similarity. rewrite !sameCount_filter, (Nat.max_comm (List.length b)).
  rewrite (filter_same _ _ (same_at b a)) by (intros k; apply same_at_sym).
  reflexivity.
Qed.

Lemma differ_at (a : cluster) :
  forall b, a <> b ->
    exists k, (k < Nat.max (List.length a) (List.length b))%nat /\ same_at a b k = false.
Proof.
  induction a as [|x a IH]; intros [|y b] H.
  - congruence.
  - exists 0%nat. cbn [List.length]. split; [lia | reflexivity].
  - exists 0%nat. cbn [List.length]. split; [lia | reflexivity].
  - destruct (Z.eq_dec x y) as [-> | N].
    + destruct (IH b) as (k & Hk & Sk); [congruence|].
      exists (S k). cbn [List.length]. split; [lia | exact Sk].
    + exists 0%nat. cbn [List.length]. split; [lia|].
      unfold same_at. cbn [nth_error]. apply Z.eqb_neq. exact N.
Qed.

Lemma filter_fewer (f : nat -> bool) (l : list nat) (k : nat) :
  In k l -> f k = false -> (List.length (filter f l) < List.length l)%nat.
Proof.
  induction l as [|j l IH]; [intros []|].
  intros [-> | I] F; cbn [filter List.length].
  - rewrite F. pose proof (filter_length_le f l). lia.
  - specialize (IH I F). destruct (f j); cbn [List.length]; lia.
Qed.

Lemma similarity_below_one (a b : cluster) : a <> b -> similarity a b < 1.
Proof.
  intros H. destruct (differ_at a b H) as (k & Hk & Sk).
  unfold similarity. rewrite sameCount_filter. cbn [Nat.add].
  set (m := Nat.max (List.length a) (List.length b)) in *.
  assert (L : (List.length (filter (same_at a b) (seq 0 m)) < m)%nat).
  { pose proof (filter_fewer (same_at a b) (seq 0 m) k) as F.
    rewrite length_seq in F. apply F; [|exact Sk].
    apply in_seq. lia. }
  apply Qlt_shift_div_r.
  - replace 0 with (inject_Z 0) by reflexivity. rewrite <- Zlt_Qlt. lia.
  - rewrite Qmult_1_l. rewrite <- Zlt_Qlt. lia.
Qed.

Lemma fold_left_unchanged {A B : Type} (f : A -> B -> A) (l : list B) (x : A) :
  (forall y, In y l -> f x y = x) -> fold_left f l x = x.
Proof.
  induction l as [|y l IH]; intros H; [reflexivity|].
  cbn [fold_left]. rewrite (H y (or_introl eq_refl)).
  apply IH. intros z Hz. apply H. right. exact Hz.
Qed.


(** The entries of [partialMatches] are mirrored: [b] is a partial match
    of [a] exactly when [a] is one of [b], with the same count and the same
    coefficient. *)
Theorem partialMatches_symmetric (clusters : list cluster) (threshold : option Q)
    (a b : cluster) :
  lookup2 a b (partialMatches clusters threshold)
  = lookup2 b a (partialMatches clusters threshold).
Proof.
  rewrite !partialMatches_lookup2.
  rewrite (similarity_sym b a), (Nat.mul_comm (occurrences clusters b)).
  replace (cluster_eqb b a) with (cluster_eqb a b); [reflexivity|].
  destruct (cluster_eqb a b) eqn:E.
  - apply cluster_eqb_eq in E. subst. symmetry. apply cluster_eqb_refl.
  - symmetry. apply cluster_eqb_neq. apply cluster_eqb_neq in E. congruence.
Qed.

(** Two different clusters never agree in every position, and equal
    clusters are skipped: with a threshold of 1 or more [partialMatches]
    returns the empty object. *)
Theorem partialMatches_threshold_one (clusters : list cluster) (t : Q) :
  1 <= t -> partialMatches clusters (Some t) = [].
Proof.
  intros Ht. unfold partialMatches. cbn [threshold_of].
  apply fold_left_unchanged. intros i _.
  destruct (nth_error clusters i) as [c1|]; [|reflexivity].
  apply fold_left_unchanged. intros j _.
  unfold compare_clusters.
  destruct (i =? j)%nat; [reflexivity|].
  destruct (nth_error clusters j) as [c2|]; [|reflexivity].
  destruct (cluster_eqb c1 c2) eqn:E; [reflexivity|].
  apply cluster_eqb_neq in E.
  destruct (geb (similarity c1 c2) t) eqn:G; [|reflexivity].
  apply geb_le in G. pose proof (similarity_below_one c1 c2 E). lra.
Qed.

Lemma partialMatches_threshold_one_witness :
  1 <= 1 /\
  partialMatches [[1; 2; 3; 4]; [1; 2; 3; 5]; [1; 2; 3; 4]]%Z (Some 1) = [].
Proof.
  assert (A : 1 <= 1) by (vm_compute; congruence).
  split; [exact A|].
  exact (partialMatches_threshold_one [[1; 2; 3; 4]; [1; 2; 3; 5]; [1; 2; 3; 4]]%Z 1 A).
Defined.
